(** * Math Mentor AI: the agent pipeline and its confidence model

    A shallow embedding of the code shown in the repository's
    [docs/Source_Code_Documentation.md], [docs/Architecture_Design.md] and
    README ("Technical Report"), followed by the properties the
    specification states about it.

    Conventions of the embedding:
    - a Python [float] is an exact rational ([Q]); rounding to binary64,
      [nan] and [inf] are not modelled, the exceptions of [float()] are;
    - code that can raise returns [exn + A] ([inl] is the raised exception);
    - a JSON object decoded by the LLM client is a [gmap string value];
    - collaborators whose code is not shown (the LLM client, the embedding
      model, the FAISS index, the agents' bodies) are [Variable]s of the
      section that uses them. *)

From Stdlib Require Import QArith Lqa ZArith Lia List String.
From stdpp Require Import base option list strings gmap.

Set Warnings "-register-all".

(** * Part I: the program *)

(** ** Python values and exceptions *)

Module Py.

Inductive exn : Set :=
  | TypeError
  | ValueError          (* also json.JSONDecodeError, its subclass *)
  | IndexError
  | OverflowError
  | RuntimeError        (* API, network and I/O failures *)
  | KeyboardInterrupt.  (* a BaseException that is not an Exception *)

(** [except Exception] catches everything but the bare [BaseException]s. *)
Definition is_Exception (e : exn) : bool :=
  match e with
  | KeyboardInterrupt => false
  | _ => true
  end.

Definition result (A : Type) : Type := (exn + A)%type.

#[global] Instance result_ret : MRet result := fun A x => inr x.
#[global] Instance result_bind : MBind result :=
  fun A B f m => match m with inl e => inl e | inr x => f x end.

Definition raise {A : Type} (e : exn) : result A := inl e.

(** [try: body  except Exception: handler] *)
Definition try_except {A : Type} (body : result A) (handler : exn -> result A)
  : result A :=
  match body with
  | inr x => inr x
  | inl e => if is_Exception e then handler e else inl e
  end.

(** What [json.loads] can produce. *)
Inductive value : Type :=
  | VNone
  | VBool (b : bool)
  | VInt (z : Z)
  | VFloat (q : Q)
  | VStr (s : string)
  | VList (l : list value)
  | VTuple (l : list value)
  | VDict (d : list (string * value)).

(** [isinstance(v, (list, tuple))] *)
Definition isinstance_list_tuple (v : value) : bool :=
  match v with
  | VList _ | VTuple _ => true
  | _ => false
  end.

(** [isinstance(v, (int, float))]; [bool] is a subclass of [int]. *)
Definition isinstance_int_float (v : value) : bool :=
  match v with
  | VBool _ | VInt _ | VFloat _ => true
  | _ => false
  end.

(** Truth value of an object in a condition. *)
Definition truthy (v : value) : bool :=
  match v with
  | VNone => false
  | VBool b => b
  | VInt z => negb (z =? 0)%Z
  | VFloat q => negb (Qeq_bool q 0)
  | VStr s => negb (String.eqb s "")
  | VList l | VTuple l => negb (Nat.eqb (length l) 0)
  | VDict d => negb (Nat.eqb (length d) 0)
  end.

(** [l[i]] on a sequence: negative indices count from the end, anything
    out of range raises [IndexError]. *)
Definition index {A : Type} (l : list A) (i : Z) : result A :=
  let n := Z.of_nat (length l) in
  let j := if (i <? 0)%Z then (n + i)%Z else i in
  if ((0 <=? j) && (j <? n))%Z
  then match l !! Z.to_nat j with
       | Some x => inr x
       | None => inl IndexError
       end
  else inl IndexError.

(** [v[i]] on a value; only sequences are subscripted in the code. *)
Definition getitem (v : value) (i : Z) : result value :=
  match v with
  | VList l | VTuple l => index l i
  | _ => inl TypeError
  end.

(** An [int] converts to [float] unless it rounds past the largest
    binary64 number. *)
Definition float_max_int : Z := (2 ^ 1024 - 2 ^ 970)%Z.

Section Float.
(** [float(s)] on a string: the parser of numeric literals is the
    interpreter's; [None] is [ValueError]. *)
Variable float_of_str : string -> option Q.

(** [float(v)] *)
Definition float (v : value) : result Q :=
  match v with
  | VFloat q => inr q
  | VInt z =>
      if (Z.abs z <? float_max_int)%Z then inr (inject_Z z)
      else inl OverflowError
  | VBool b => inr (if b then 1%Q else 0%Q)
  | VStr s =>
      match float_of_str s with
      | Some q => inr q
      | None => inl ValueError
      end
  | VNone | VList _ | VTuple _ | VDict _ => inl TypeError
  end.
End Float.

End Py.

Import Py.

(** ** Confidence: the solver's score and the verifier's weighted score *)

Module Confidence.
Local Open Scope Q_scope.

(** The dict [confidence_factors], in insertion order. *)
Record confidence_factors : Set := {
  rag_coverage : Q;
  citation_quality : Q;
  llm_confidence : Q;
  has_verification : Q
}.

(** [confidence_factors.values()] *)
Definition values (f : confidence_factors) : list Q :=
  [rag_coverage f; citation_quality f; llm_confidence f; has_verification f].

(** The builtin [sum]: a left fold from [0]. *)
Definition sum (l : list Q) : Q := fold_left Qplus l 0.

(** [len(...)] as a number. *)
Definition len {A : Type} (l : list A) : Q := inject_Z (Z.of_nat (length l)).

(** [final_confidence = sum(confidence_factors.values()) / len(confidence_factors)]
    (SolverAgent._calculate_confidence). *)
Definition _calculate_confidence (f : confidence_factors) : Q :=
  sum (values f) / len (values f).

Section SolverScore.
Variable float_of_str : string -> option Q.

(** The dict literal of [_calculate_confidence]: three discrete levels
    and [float(solution.get("confidence", 0.7))]. *)
Definition make_confidence_factors (has_context has_citations verified : bool)
    (solution : gmap string value) : result confidence_factors :=
  c ← float float_of_str (default (VFloat 0.7) (solution !! "confidence"));
  mret {| rag_coverage := if has_context then 0.9 else 0.3;
          citation_quality := if has_citations then 0.9 else 0.4;
          llm_confidence := c;
          has_verification := if verified then 0.9 else 0.6 |}.

(** [_calculate_confidence(solution)]: the dict literal, then the mean. *)
Definition solver_final_confidence (has_context has_citations verified : bool)
    (solution : gmap string value) : result Q :=
  f ← make_confidence_factors has_context has_citations verified solution;
  mret (_calculate_confidence f).

(** README, "Challenge 2":
<<
  llm_conf = solution_json.get("confidence", 0.7)
  if isinstance(llm_conf, (list, tuple)):
      llm_conf = float(llm_conf[0]) if llm_conf else 0.7
  elif not isinstance(llm_conf, (int, float)):
      llm_conf = 0.7
>>
    The result is the final binding of [llm_conf]. *)
Definition coerce_confidence (solution_json : gmap string value)
  : result value :=
  let llm_conf := default (VFloat 0.7) (solution_json !! "confidence") in
  if isinstance_list_tuple llm_conf then
    if truthy llm_conf
    then x ← getitem llm_conf 0; q ← float float_of_str x; mret (VFloat q)
    else mret (VFloat 0.7)
  else if negb (isinstance_int_float llm_conf) then mret (VFloat 0.7)
  else mret llm_conf.

(** Source code documentation, 5.2: the same without the [elif]. *)
Definition coerce_confidence_short (solution : gmap string value)
  : result value :=
  let llm_conf := default (VFloat 0.7) (solution !! "confidence") in
  if isinstance_list_tuple llm_conf then
    if truthy llm_conf
    then x ← getitem llm_conf 0; q ← float float_of_str x; mret (VFloat q)
    else mret (VFloat 0.7)
  else mret llm_conf.
End SolverScore.

(** The number a coerced confidence stands for, when it is one. *)
Definition number (v : value) : option Q :=
  match v with
  | VFloat q => Some q
  | VInt z => Some (inject_Z z)
  | VBool b => Some (if b then 1 else 0)
  | _ => None
  end.

(** Modelled from the spec: the body of [VerifierAgent._calculate_final_score]
    (the [weighted_avg] of the architecture document) is not in the
    sources; the spec calls it a fixed weighted mean, so it is the
    weighted sum of the scores over the sum of the weights. *)
Definition weighted_avg (l : list (Q * Q)) : Q :=
  sum (map (fun xw => fst xw * snd xw) l) / sum (map snd l).

(** The weights of the architecture document, 3.1 step 4. *)
Record weights : Set := {
  w_rag_coverage : Q;
  w_citation_quality : Q;
  w_llm_confidence : Q;
  w_verification : Q
}.

Definition default_weights : weights :=
  {| w_rag_coverage := 0.25;
     w_citation_quality := 0.20;
     w_llm_confidence := 0.30;
     w_verification := 0.25 |}.

(** Modelled from the spec: the four sub-scores of the spec's 4.6, each
    with its weight. *)
Definition _calculate_final_score_with (w : weights) (f : confidence_factors) : Q :=
  weighted_avg [(rag_coverage f, w_rag_coverage w);
                (citation_quality f, w_citation_quality w);
                (llm_confidence f, w_llm_confidence w);
                (has_verification f, w_verification w)].

(** Modelled from the spec: [VerifierAgent._calculate_final_score] at the
    default weights. *)
Definition _calculate_final_score : confidence_factors -> Q :=
  _calculate_final_score_with default_weights.

(** Two tuples of sub-scores that denote the same numbers. *)
Definition same_scores (f g : confidence_factors) : Prop :=
  rag_coverage f == rag_coverage g /\
  citation_quality f == citation_quality g /\
  llm_confidence f == llm_confidence g /\
  has_verification f == has_verification g.

(** [f] and [g] agree on three sub-scores and [f]'s remaining one is at
    most [g]'s. *)
Definition le_in_one_score (f g : confidence_factors) : Prop :=
  (rag_coverage f <= rag_coverage g /\ citation_quality f == citation_quality g /\
   llm_confidence f == llm_confidence g /\ has_verification f == has_verification g) \/
  (rag_coverage f == rag_coverage g /\ citation_quality f <= citation_quality g /\
   llm_confidence f == llm_confidence g /\ has_verification f == has_verification g) \/
  (rag_coverage f == rag_coverage g /\ citation_quality f == citation_quality g /\
   llm_confidence f <= llm_confidence g /\ has_verification f == has_verification g) \/
  (rag_coverage f == rag_coverage g /\ citation_quality f == citation_quality g /\
   llm_confidence f == llm_confidence g /\ has_verification f <= has_verification g).

(** The sub-scores of the architecture document's worked example. *)
Definition example_factors : confidence_factors :=
  {| rag_coverage := 0.9; citation_quality := 0.9;
     llm_confidence := 0.92; has_verification := 0.95 |}.

End Confidence.

(** ** The retriever *)

Module RAG.
Local Open Scope Q_scope.

(** An entry of [self.chunks] (chunks.pkl). *)
Record chunk : Set := { text : string; source : string }.

(** An element of the list [retrieve] returns. *)
Record hit : Set := { content : string; hit_source : string; score : Q }.

Record RAGRetriever : Set := { chunks : list chunk; threshold : Q }.

Section Retriever.
(** The embedding model and the FAISS index: [encode query] is
    [self.model.encode([query])], [search v k] is
    [zip(scores[0], indices[0])] of [self.index.search(v, k)]. *)
Variable vector : Type.
Variable encode : string -> result vector.
Variable search : vector -> nat -> result (list (Q * Z)).

(** The loop of [retrieve]: [results] is the accumulator. *)
Fixpoint filter_by_threshold (self : RAGRetriever) (pairs : list (Q * Z))
    (results : list hit) : result (list hit) :=
  match pairs with
  | [] => mret results
  | (s, idx) :: rest =>
      if Qle_bool (threshold self) s then
        c ← index (chunks self) idx;
        filter_by_threshold self rest
          (results ++ [{| content := text c; hit_source := source c; score := s |}])
      else filter_by_threshold self rest results
  end.

(** [retrieve(self, query, k=5)] *)
Definition retrieve (self : RAGRetriever) (query : string) (k : nat)
    : result (list hit) :=
  query_vector ← encode query;
  pairs ← search query_vector k;
  filter_by_threshold self pairs [].

(** Source code documentation, 5.3:
<<
    try:
        chunks = retriever.retrieve(query)
    except Exception:
        chunks = []  # Proceed without RAG
>> *)
Definition retrieve_or_empty (self : RAGRetriever) (query : string)
    : result (list hit) :=
  try_except (retrieve self query 5) (fun _ => mret []).
End Retriever.

End RAG.

(** ** The solver's LLM call *)

Module Solver.

Section LLM.
(** The LLM client: [self.llm.generate_json], [self.llm.generate] and the
    solver's [_parse_text_response]. *)
Variable generate_json : string -> result (gmap string value).
Variable generate : string -> result string.
Variable _parse_text_response : string -> result (gmap string value).

(** Source code documentation, 5.1:
<<
    try:
        solution = self.llm.generate_json(prompt)
    except Exception as json_error:
        text_response = self.llm.generate(prompt)
        solution = self._parse_text_response(text_response)
>> *)
Definition generate_solution (prompt : string) : result (gmap string value) :=
  try_except (generate_json prompt)
    (fun json_error =>
       text_response ← generate prompt;
       _parse_text_response text_response).
End LLM.

(** What the claim expects when both attempts fail: a solution whose
    confidence is zero. *)
Definition zero_confidence (solution : gmap string value) : Prop :=
  exists v q, solution !! "confidence" = Some v /\
              Confidence.number v = Some q /\ (q == 0)%Q.

End Solver.

(** ** The verifier's human-in-the-loop trigger *)

Module Verifier.
Local Open Scope Q_scope.

Record VerifierAgent : Set := { hitl_threshold : Q }.

(** [x < y] on numbers, as a test. *)
Definition Qlt_bool (x y : Q) : bool := negb (Qle_bool y x).

(** The dict returned under the threshold. *)
Definition hitl_verdict : gmap string value :=
  <["verdict" := VStr "uncertain"]>
  (<["hitl_required" := VBool true]>
  (<["question" := VStr "Please verify this solution..."]> ∅)).

Section Verify.
(** What [verify] does past the trigger is not shown. *)
Variable otherwise : Q -> gmap string value.

(** The trigger of [verify], on the score it has computed:
<<
    if final_confidence < self.hitl_threshold:  # 0.70
        return {"verdict": "uncertain", "hitl_required": True, "question": ...}
>> *)
Definition hitl_trigger (self : VerifierAgent) (final_confidence : Q)
    : gmap string value :=
  if Qlt_bool final_confidence (hitl_threshold self) then hitl_verdict
  else otherwise final_confidence.

(** How [verify] gets from the solution to the four sub-scores is not
    shown either. *)
Variable factors_of : gmap string value -> Confidence.confidence_factors.

(** [verify(self, solution)] *)
Definition verify (self : VerifierAgent) (solution : gmap string value)
    : gmap string value :=
  hitl_trigger self (Confidence._calculate_final_score (factors_of solution)).
End Verify.

End Verifier.

(** ** The orchestrator *)

Module Pipeline.

Inductive agent : Set := Parser | Router | SolverA | VerifierA | Explainer.

(** Agent calls are logged: a computation takes the calls made so far and
    gives its result, a value or the exception raised, with the calls made
    by then. *)
Definition M (A : Type) : Type := list agent -> result A * list agent.

#[global] Instance M_ret : MRet M := fun A x calls => (inr x, calls).
#[global] Instance M_bind : MBind M :=
  fun A B f m calls =>
    match m calls with
    | (inr x, calls') => f x calls'
    | (inl e, calls') => (inl e, calls')
    end.

(** Calling a method of agent [a]. *)
Definition call {A B : Type} (a : agent) (f : A -> result B) (x : A) : M B :=
  fun calls => (f x, calls ++ [a]).

Record trace_entry : Set := { agent_name : string; status : string }.

(** The dict [run_agent_pipeline] returns; the keys elided in the
    documentation are those of the architecture document's result
    dictionary. *)
Record pipeline_result : Type := {
  success : bool;
  trace : list trace_entry;
  solver : gmap string value;
  verifier : gmap string value;
  explainer : gmap string value
}.

Section Run.
(** The agents' methods. *)
Variable parse : string -> result (gmap string value).
Variable route : gmap string value -> result (gmap string value).
Variable solve : string -> gmap string value -> result (gmap string value).
Variable verify : gmap string value -> result (gmap string value).
Variable explain : gmap string value -> result (gmap string value).

(** [run_agent_pipeline(problem_text, source, settings)] *)
Definition run_agent_pipeline (problem_text source : string)
    (settings : gmap string value) : M pipeline_result :=
  let trace := [] in
  parsed ← call Parser parse problem_text;
  let trace := trace ++ [{| agent_name := "Parser"; status := "completed" |}] in
  route' ← call Router route parsed;
  solution ← call SolverA (solve problem_text) route';
  verification ← call VerifierA verify solution;
  explanation ← call Explainer explain solution;
  mret {| success := true; trace := trace; solver := solution;
          verifier := verification; explainer := explanation |}.


End Run.



End Pipeline.

(** ** The memory store *)

Module Memory.

(** A row of the table [problems] (the schema of [memory_store.py]). *)
Record problem_row : Set := {
  id : string;
  problem_text : string;
  problem_hash : string;
  solution : string;
  confidence : Q;
  feedback : option string;
  created_at : Z;
  source : string
}.

Section Store.
(** Text normalisation and the digest behind [problem_hash]. *)
Variable normalize : string -> string.
Variable digest : string -> string.

(** Modelled from the spec: how [memory_store.py] fills [problem_hash] is
    not in the sources; the spec makes the fingerprint a function of the
    normalized problem text. *)
Definition fingerprint (text : string) : string := digest (normalize text).

Definition has_hash (h : string) (r : problem_row) : bool :=
  String.eqb (problem_hash r) h.

(** The row after a re-save: identity, text, hash, feedback and creation
    time stay. *)
Definition update_row (sol : string) (conf : Q) (src : string)
    (r : problem_row) : problem_row :=
  {| id := id r; problem_text := problem_text r;
     problem_hash := problem_hash r; solution := sol; confidence := conf;
     feedback := feedback r; created_at := created_at r; source := src |}.

(** Modelled from the spec: the body of [MemoryStore.save_problem] is not in
    the sources (only the table's schema is); the spec's
    [save(problem_text, solution, confidence, source_tag) -> id] appends a
    new entry and, on a text whose fingerprint is stored already, updates
    that entry instead. [new_id] and [now] are the identifier and the
    clock reading drawn by the call. *)
Definition save (new_id : string) (now : Z) (text sol : string) (conf : Q)
    (src : string) (db : list problem_row) : string * list problem_row :=
  let h := fingerprint text in
  match List.find (has_hash h) db with
  | Some r =>
      (id r,
       List.map (fun r' => if has_hash h r' then update_row sol conf src r' else r') db)
  | None =>
      (new_id,
       db ++ [{| id := new_id; problem_text := text; problem_hash := h;
                 solution := sol; confidence := conf; feedback := None;
                 created_at := now; source := src |}])
  end.

(** The rows stored for a text. *)
Definition entries_for (text : string) (db : list problem_row)
    : list problem_row :=
  List.filter (has_hash (fingerprint text)) db.
End Store.

(** No two rows carry the same fingerprint. *)
Definition unique_hashes (db : list problem_row) : Prop :=
  NoDup (List.map problem_hash db).

End Memory.

(** ** The hits of a retrieval, one by one *)

Module Hits.

(** The pairs the loop of [retrieve] keeps. *)
Definition kept (self : RAG.RAGRetriever) (pairs : list (Q * Z)) : list (Q * Z) :=
  List.filter (fun p => Qle_bool (RAG.threshold self) (fst p)) pairs.

(** The dict appended for a kept pair; [self.chunks[idx]] may raise. *)
Definition hit_at (self : RAG.RAGRetriever) (p : Q * Z) : result RAG.hit :=
  c ← index (RAG.chunks self) (snd p);
  mret {| RAG.content := RAG.text c; RAG.hit_source := RAG.source c;
          RAG.score := fst p |}.

(** Running a fallible step over a list, first failure wins. *)
Fixpoint map_result {A B : Type} (f : A -> result B) (l : list A)
    : result (list B) :=
  match l with
  | [] => mret []
  | x :: rest => y ← f x; ys ← map_result f rest; mret (y :: ys)
  end.

(** An index [self.chunks] accepts. *)
Definition valid_index (self : RAG.RAGRetriever) (idx : Z) : Prop :=
  (- Z.of_nat (length (RAG.chunks self)) <= idx < Z.of_nat (length (RAG.chunks self)))%Z.

End Hits.

(** ** The solver's retrieval context *)

Module Context.

(** The line feed of ["\n"]. *)
Definition nl : string := String (Ascii.ascii_of_nat 10) EmptyString.

(** [sep.join(l)] *)
Fixpoint join (sep : string) (l : list string) : string :=
  match l with
  | [] => EmptyString
  | [x] => x
  | x :: rest => String.append x (String.append sep (join sep rest))
  end.

(** [f"[Source: {c['source']}]\n{c['content']}"] *)
Definition format_chunk (c : RAG.hit) : string :=
  String.append "[Source: "
    (String.append (RAG.hit_source c)
       (String.append "]" (String.append nl (RAG.content c)))).

Section GetContext.
Variable vector : Type.
Variable encode : string -> result vector.
Variable search : vector -> nat -> result (list (Q * Z)).

(** [_get_rag_context(self, query, k=5)]: the retriever's chunks and the
    text built from them. *)
Definition _get_rag_context (retriever : RAG.RAGRetriever) (query : string)
    (k : nat) : result (string * list RAG.hit) :=
  chunks ← RAG.retrieve vector encode search retriever query k;
  let context := join (String.append nl nl) (List.map format_chunk chunks) in
  mret (context, chunks).
End GetContext.

End Context.

(** ** The input processors *)

Module OCR.

Section Enhance.
(** The prompt of [_llm_enhance_ocr], a text around the raw OCR output
    (elided in the documentation), and the LLM client's [generate], which
    answers with a text or with [None]. *)
Variable ocr_prompt : string -> string.
Variable generate : string -> result (option string).

(** Truth value of what [generate] answers. *)
Definition answered (corrected : option string) : bool :=
  match corrected with
  | Some s => negb (String.eqb s "")
  | None => false
  end.

(** [_llm_enhance_ocr(self, raw_text, confidence)] *)
Definition _llm_enhance_ocr (raw_text : string) (confidence : Q)
    : result string :=
  let prompt := ocr_prompt raw_text in
  corrected ← generate prompt;
  mret (if answered corrected then default raw_text corrected else raw_text).
End Enhance.

End OCR.

Module ASR.

#[global] Instance byte_eq_dec : EqDecision Byte.byte := Byte.byte_eq_dec.

(** [b'RIFF'] *)
Definition RIFF : list Byte.byte := [Byte.x52; Byte.x49; Byte.x46; Byte.x46].

(** The [inline_data] of the request. *)
Record inline_data : Set := { mime_type : string; data : string }.

Section Transcribe.
(** [base64.b64encode(...).decode('utf-8')], the transcription prompt and
    the model's [generate_content(...).text]. *)
Variable b64encode : list Byte.byte -> string.
Variable prompt : string.
Variable generate_content : string -> inline_data -> result string.

(** The dict [audio_part]: the format is read off the first four bytes. *)
Definition audio_part (audio_bytes : list Byte.byte) : inline_data :=
  let mime_type := "audio/webm" in
  let mime_type :=
    if bool_decide (firstn 4 audio_bytes = RIFF) then "audio/wav" else mime_type in
  {| mime_type := mime_type; data := b64encode audio_bytes |}.

(** [_transcribe_with_gemini(self, audio_bytes)] *)
Definition _transcribe_with_gemini (audio_bytes : list Byte.byte)
    : result string :=
  generate_content prompt (audio_part audio_bytes).
End Transcribe.

End ASR.

(** ** The LLM client's key *)

Module LLMClient.

(** A key is [None] or a text; the empty text counts as no key. *)
Definition has_key (k : option string) : bool :=
  match k with
  | Some s => negb (String.eqb s "")
  | None => false
  end.

(** [x or y] *)
Definition py_or (x y : option string) : option string :=
  if has_key x then x else y.

(** What [__init__] leaves in [self.api_key]; [import streamlit] raises
    [ImportError] where the package is missing. *)
Inductive init_outcome : Set :=
| ImportError
| api_key_set (k : option string).

(** The key resolution of [LLMClient.__init__]: [environ] is
    [os.environ]; [streamlit] is [None] when the import fails, else what
    [st.secrets] holds ([None] when [st] has no such attribute). *)
Definition resolve_api_key (api_key : option string)
    (environ : gmap string string)
    (streamlit : option (option (gmap string (gmap string string))))
    : init_outcome :=
  let self_api_key := py_or api_key (environ !! "GOOGLE_API_KEY") in
  if negb (has_key self_api_key) then
    match streamlit with
    | None => ImportError
    | Some None => api_key_set self_api_key
    | Some (Some secrets) =>
        match secrets !! "api_keys" with
        | Some api_keys => api_key_set (api_keys !! "GOOGLE_API_KEY")
        | None => api_key_set self_api_key
        end
    end
  else api_key_set self_api_key.

(** The key the secrets hold, if any. *)
Definition secret_key (streamlit : option (option (gmap string (gmap string string))))
    : option string :=
  match streamlit with
  | Some (Some secrets) =>
      match secrets !! "api_keys" with
      | Some api_keys => api_keys !! "GOOGLE_API_KEY"
      | None => None
      end
  | _ => None
  end.

End LLMClient.

(** * Part II: properties *)

(** ** Confidence aggregation *)

Section ConfidenceFacts.
Import Confidence.
Local Open Scope Q_scope.

(** The solver's score is the plain mean of its four factors. *)
Lemma calculate_confidence_mean (f : confidence_factors) :
  _calculate_confidence f ==
  (rag_coverage f + citation_quality f + llm_confidence f + has_verification f) * (1 # 4).
Proof.
  destruct f as [r c g v]. unfold _calculate_confidence, sum, len, values.
  cbn [fold_left length rag_coverage citation_quality llm_confidence has_verification].
  unfold Qdiv. change (/ inject_Z (Z.of_nat 4)) with (1 # 4). lra.
Qed.

Lemma default_weights_total :
  w_rag_coverage default_weights + w_citation_quality default_weights +
  w_llm_confidence default_weights + w_verification default_weights == 1.
Proof. reflexivity. Qed.

(** With the default weights the normalisation is by one. *)
Lemma calculate_final_score_linear (f : confidence_factors) :
  _calculate_final_score f ==
  0.25 * rag_coverage f + 0.20 * citation_quality f +
  0.30 * llm_confidence f + 0.25 * has_verification f.
Proof.
  destruct f as [r c g v].
  unfold _calculate_final_score, _calculate_final_score_with, weighted_avg, sum.
  cbn [map fold_left fst snd default_weights rag_coverage citation_quality
       llm_confidence has_verification w_rag_coverage w_citation_quality
       w_llm_confidence w_verification].
  assert (E : 0 + 0.25 + 0.20 + 0.30 + 0.25 == 1) by reflexivity.
  rewrite E. unfold Qdiv. change (/ 1) with 1. lra.
Qed.

(** Both scores grow with every factor. *)
Lemma scores_pointwise_le (f g : confidence_factors) :
  rag_coverage f <= rag_coverage g ->
  citation_quality f <= citation_quality g ->
  llm_confidence f <= llm_confidence g ->
  has_verification f <= has_verification g ->
  _calculate_confidence f <= _calculate_confidence g /\
  _calculate_final_score f <= _calculate_final_score g.
Proof.
  intros Hr Hc Hl Hv.
  rewrite !calculate_confidence_mean, !calculate_final_score_linear.
  split; lra.
Qed.

(** The solver's plain mean and the verifier's weighted mean are two
    different functions: they part on a score that only the LLM backs. *)
Remark mean_is_not_weighted :
  let f := {| rag_coverage := 0; citation_quality := 0;
              llm_confidence := 1; has_verification := 0 |} in
  _calculate_confidence f == 1 # 4 /\ _calculate_final_score f == 3 # 10.
Proof. split; reflexivity. Qed.

(** The architecture document's example: the weights give 0.9185 where
    the document prints 0.93. *)
Remark example_final_score :
  _calculate_final_score example_factors == 0.9185 /\
  _calculate_confidence example_factors == 0.9175.
Proof. split; reflexivity. Qed.

(** C1: the verifier's final confidence is the weighted mean of the four
    sub-scores with weights 0.25 (retrieval), 0.20 (citation), 0.30
    (generative) and 0.25 (verification), and it is reproducible: the same
    four inputs give the same score, identical inputs the identical one. *)
Theorem C1_final_confidence_weighted_mean (f g : confidence_factors) :
  same_scores f g ->
  _calculate_final_score f ==
    0.25 * rag_coverage f + 0.20 * citation_quality f +
    0.30 * llm_confidence f + 0.25 * has_verification f /\
  _calculate_final_score g == _calculate_final_score f /\
  (f = g -> _calculate_final_score g = _calculate_final_score f).
Proof.
  intros (Hr & Hc & Hl & Hv). split; [apply calculate_final_score_linear |].
  split; [| intros ->; reflexivity].
  rewrite !calculate_final_score_linear. lra.
Qed.

Lemma C1_final_confidence_weighted_mean_witness :
  let f := example_factors in
  let g := {| rag_coverage := 18 # 20; citation_quality := 9 # 10;
              llm_confidence := 23 # 25; has_verification := 19 # 20 |} in
  _calculate_final_score g == _calculate_final_score f.
Proof.
  intros f g.
  apply (C1_final_confidence_weighted_mean f g).
  repeat split; reflexivity.
Defined.

(** C8: with no issues in play, the aggregation is monotone in each
    sub-score: lowering one of the four and keeping the other three never
    raises the score, for the solver's mean and for the verifier's weighted
    mean alike. *)
Theorem C8_confidence_monotone (f g : confidence_factors) :
  le_in_one_score f g ->
  _calculate_confidence f <= _calculate_confidence g /\
  _calculate_final_score f <= _calculate_final_score g.
Proof.
  intros H. apply scores_pointwise_le;
    destruct H as [H | [H | [H | H]]]; destruct H as (Hr & Hc & Hl & Hv); lra.
Qed.

Lemma C8_confidence_monotone_witness :
  let f := {| rag_coverage := 0.3; citation_quality := 0.9;
              llm_confidence := 0.7; has_verification := 0.9 |} in
  let g := {| rag_coverage := 0.9; citation_quality := 0.9;
              llm_confidence := 0.7; has_verification := 0.9 |} in
  _calculate_confidence f <= _calculate_confidence g /\
  _calculate_final_score f <= _calculate_final_score g.
Proof.
  intros f g. apply (C8_confidence_monotone f g).
  left. cbn. repeat split; try reflexivity. vm_compute. discriminate.
Defined.

End ConfidenceFacts.

(** ** The coercion of the self-reported confidence *)

Section CoercionFacts.
Import Confidence.
Local Open Scope Q_scope.
Variable float_of_str : string -> option Q.

Lemma index_0_cons {A : Type} (x : A) (l : list A) : index (x :: l) 0 = inr x.
Proof.
  unfold index. cbn [length]. rewrite Nat2Z.inj_succ.
  change (0 <? 0)%Z with false. cbv iota.
  destruct (Z.ltb_spec 0 (Z.succ (Z.of_nat (length l)))) as [_ | H]; [reflexivity | lia].
Qed.

Lemma index_nil {A : Type} (i : Z) : index (@nil A) i = inl IndexError.
Proof.
  unfold index. cbn [length].
  destruct (i <? 0)%Z eqn:E.
  - apply Z.ltb_lt in E.
    destruct (Z.leb_spec 0 (Z.of_nat 0 + i)) as [H | H]; [cbn in H; lia | reflexivity].
  - destruct (Z.ltb_spec i (Z.of_nat 0)) as [H | H].
    + apply Z.ltb_ge in E. cbn in H. lia.
    + rewrite andb_false_r. reflexivity.
Qed.

(** [float()] raises [TypeError], [ValueError] or [OverflowError] only. *)
Lemma float_not_IndexError (v : value) : float float_of_str v <> inl IndexError.
Proof.
  destruct v as [| b | z | q | s | l | l | d]; cbn; try discriminate.
  - destruct (Z.abs z <? float_max_int)%Z; discriminate.
  - destruct (float_of_str s); discriminate.
Qed.

(** The first branch on a non-empty sequence: [float(llm_conf[0])]. *)
Lemma coerce_confidence_first (solution_json : gmap string value)
    (x : value) (l : list value) :
  solution_json !! "confidence" = Some (VList (x :: l)) \/
  solution_json !! "confidence" = Some (VTuple (x :: l)) ->
  coerce_confidence float_of_str solution_json =
    (q ← float float_of_str x; mret (VFloat q)) /\
  coerce_confidence_short float_of_str solution_json =
    (q ← float float_of_str x; mret (VFloat q)).
Proof.
  intros [H | H]; unfold coerce_confidence, coerce_confidence_short;
    rewrite H; cbn [default id isinstance_list_tuple truthy length Nat.eqb negb getitem];
    rewrite index_0_cons; split; reflexivity.
Qed.

(** The default: no field, or an empty sequence. *)
Lemma coerce_confidence_default (solution_json : gmap string value) :
  solution_json !! "confidence" = None \/
  solution_json !! "confidence" = Some (VList []) \/
  solution_json !! "confidence" = Some (VTuple []) ->
  coerce_confidence float_of_str solution_json = inr (VFloat 0.7) /\
  coerce_confidence_short float_of_str solution_json = inr (VFloat 0.7).
Proof.
  intros [H | [H | H]]; unfold coerce_confidence, coerce_confidence_short;
    rewrite H; split; reflexivity.
Qed.

Lemma coerce_confidence_no_IndexError (solution_json : gmap string value) :
  coerce_confidence float_of_str solution_json <> inl IndexError /\
  coerce_confidence_short float_of_str solution_json <> inl IndexError.
Proof.
  assert (F : forall x : value,
             (q ← float float_of_str x; mret (VFloat q)) <> (inl IndexError : result value)).
  { intros x. pose proof (float_not_IndexError x) as N.
    destruct (float float_of_str x) as [e | q]; cbn; [| discriminate].
    intros Heq. apply N. inversion Heq. reflexivity. }
  destruct (solution_json !! "confidence") as [c |] eqn:E.
  - destruct c as [| b | z | q | s | [| x l] | [| x l] | d];
      try (unfold coerce_confidence, coerce_confidence_short; rewrite E; cbn;
           split; discriminate).
    + destruct (coerce_confidence_first solution_json x l (or_introl E)) as [-> ->].
      split; apply F.
    + destruct (coerce_confidence_first solution_json x l (or_intror E)) as [-> ->].
      split; apply F.
  - destruct (coerce_confidence_default solution_json (or_introl E)) as [-> ->].
    split; discriminate.
Qed.

(** Without the coercion the solver's own score raises on a confidence
    that came as a list: [float()] does not take a list. *)
Remark solver_final_confidence_on_list (has_context has_citations verified : bool)
    (solution : gmap string value) (l : list value) :
  solution !! "confidence" = Some (VList l) ->
  solver_final_confidence float_of_str has_context has_citations verified solution
  = inl TypeError.
Proof.
  intros H. unfold solver_final_confidence, make_confidence_factors.
  rewrite H. reflexivity.
Qed.

(** C10 (amended): an empty list or tuple in the confidence field, like a
    missing field, coerces to the default 0.7 (not to a midpoint 0.5); the
    guard on the sequence's truth value keeps [llm_conf[0]] from an empty
    sequence, so no input makes the coercion raise [IndexError]. *)
Theorem C10_empty_confidence_defaults (solution_json : gmap string value) :
  solution_json !! "confidence" = None \/
  solution_json !! "confidence" = Some (VList []) \/
  solution_json !! "confidence" = Some (VTuple []) ->
  coerce_confidence float_of_str solution_json = inr (VFloat 0.7) /\
  coerce_confidence_short float_of_str solution_json = inr (VFloat 0.7) /\
  getitem (VList []) 0 = inl IndexError /\
  getitem (VTuple []) 0 = inl IndexError /\
  ~ 0.7 == 0.5 /\
  (forall other : gmap string value,
     coerce_confidence float_of_str other <> inl IndexError /\
     coerce_confidence_short float_of_str other <> inl IndexError).
Proof.
  intros H. destruct (coerce_confidence_default solution_json H) as [E1 E2].
  repeat split; try assumption; try apply index_nil; try discriminate;
    apply coerce_confidence_no_IndexError.
Qed.

(** The coercion, case by case. *)
Lemma coerce_confidence_cases (solution_json : gmap string value) :
  coerce_confidence float_of_str solution_json =
  match default (VFloat 0.7) (solution_json !! "confidence") with
  | VList (x :: _) | VTuple (x :: _) => q ← float float_of_str x; mret (VFloat q)
  | VList [] | VTuple [] => inr (VFloat 0.7)
  | VNone | VStr _ | VDict _ => inr (VFloat 0.7)
  | (VBool _ | VInt _ | VFloat _) as number => inr number
  end.
Proof.
  destruct (solution_json !! "confidence") as [c |] eqn:E.
  - destruct c as [| b | z | q | s | [| x l] | [| x l] | d];
      unfold coerce_confidence; rewrite E; reflexivity.
  - unfold coerce_confidence. rewrite E. reflexivity.
Qed.

(** C5 (amended): a confidence given as a non-empty list or tuple whose
    first element [float()] accepts is reduced to that element; a missing
    field, an empty list or tuple and any value that is neither a sequence
    nor an [int] or [float] give the default 0.7; an [int], [float] or
    [bool] is kept as it is, whatever its size. *)
Theorem C5_confidence_coercion (solution_json : gmap string value) :
  (forall x l q,
     solution_json !! "confidence" = Some (VList (x :: l)) \/
     solution_json !! "confidence" = Some (VTuple (x :: l)) ->
     float float_of_str x = inr q ->
     coerce_confidence float_of_str solution_json = inr (VFloat q)) /\
  (solution_json !! "confidence" = None \/
   solution_json !! "confidence" = Some (VList []) \/
   solution_json !! "confidence" = Some (VTuple []) ->
   coerce_confidence float_of_str solution_json = inr (VFloat 0.7)) /\
  (forall c,
     solution_json !! "confidence" = Some c ->
     isinstance_list_tuple c = false -> isinstance_int_float c = false ->
     coerce_confidence float_of_str solution_json = inr (VFloat 0.7)) /\
  (forall c,
     solution_json !! "confidence" = Some c ->
     isinstance_int_float c = true ->
     coerce_confidence float_of_str solution_json = inr c).
Proof.
  rewrite coerce_confidence_cases. repeat split.
  - intros x l q [-> | ->] Hq; cbn [default id]; rewrite Hq; reflexivity.
  - intros [-> | [-> | ->]]; reflexivity.
  - intros c -> Hs Hn. destruct c as [| b | z | q | s | [| x l] | [| x l] | d];
      cbn in *; congruence.
  - intros c -> Hn. destruct c as [| b | z | q | s | [| x l] | [| x l] | d];
      cbn in *; congruence.
Qed.

End CoercionFacts.

Lemma C10_empty_confidence_defaults_witness :
  Confidence.coerce_confidence (fun _ => None) {[ "confidence" := VList [] ]} = inr (VFloat 0.7%Q).
Proof.
  apply (C10_empty_confidence_defaults (fun _ => None) {[ "confidence" := VList [] ]}).
  right; left. reflexivity.
Defined.

(** C10 as stated fails where it calls the coercion total: on a list whose
    first element is [null] it raises [TypeError] and returns nothing, in
    either version. *)
Lemma C10_coercion_not_total_counterexample :
  Confidence.coerce_confidence (fun _ => None) {[ "confidence" := VList [VNone] ]}
    = inl TypeError /\
  Confidence.coerce_confidence_short (fun _ => None) {[ "confidence" := VList [VNone] ]}
    = inl TypeError /\
  ~ (forall solution_json : gmap string value,
       exists v, Confidence.coerce_confidence (fun _ => None) solution_json = inr v).
Proof.
  split; [reflexivity |]. split; [reflexivity |].
  intros H. destruct (H {[ "confidence" := VList [VNone] ]}) as [v Hv].
  discriminate Hv.
Qed.

Lemma C5_confidence_coercion_witness :
  Confidence.coerce_confidence (fun _ => None) {[ "confidence" := VList [VFloat 0.95%Q] ]}
  = inr (VFloat 0.95%Q).
Proof.
  apply (proj1 (C5_confidence_coercion (fun _ => None)
                  {[ "confidence" := VList [VFloat 0.95%Q] ]})
           (VFloat 0.95%Q) [] 0.95%Q).
  - left. reflexivity.
  - reflexivity.
Defined.

(** C5 as stated fails: nothing is clamped, a confidence of 5 or of -3,
    alone or in a list, comes out as it went in; what is not a number gives
    0.7, not a midpoint; and the coercion is not total, a list whose
    first element is [null] makes it raise. *)
Lemma C5_coercion_counterexample :
  Confidence.coerce_confidence (fun _ => None) {[ "confidence" := VInt 5 ]} = inr (VInt 5) /\
  Confidence.coerce_confidence (fun _ => None) {[ "confidence" := VList [VFloat (-3)%Q] ]}
    = inr (VFloat (-3)%Q) /\
  Confidence.coerce_confidence (fun _ => None) {[ "confidence" := VStr "high" ]}
    = inr (VFloat 0.7%Q) /\
  Confidence.coerce_confidence (fun _ => None) {[ "confidence" := VList [VNone] ]}
    = inl TypeError.
Proof. repeat split; vm_compute; reflexivity. Qed.

(** ** The retriever *)

Section RetrieverFacts.
Import RAG.
Local Open Scope Q_scope.
Variable vector : Type.
Variable encode : string -> result vector.
Variable search : vector -> nat -> result (list (Q * Z)).

(** The loop keeps, in order, the pairs at or above the threshold and
    nothing else. *)
Lemma filter_by_threshold_inv (self : RAGRetriever) (pairs : list (Q * Z)) :
  forall acc res : list hit,
    filter_by_threshold self pairs acc = inr res ->
    exists kept : list hit,
      res = acc ++ kept /\
      List.map score kept = List.filter (Qle_bool (threshold self)) (List.map fst pairs).
Proof.
  induction pairs as [| [s idx] rest IH]; intros acc res H; cbn in H.
  - exists []. inversion H. split; [symmetry; apply app_nil_r | reflexivity].
  - cbn [List.map fst List.filter].
    destruct (Qle_bool (threshold self) s) eqn:Hs.
    + destruct (index (chunks self) idx) as [e | c]; cbn in H; [discriminate |].
      destruct (IH _ _ H) as (kept & -> & Hk).
      exists ({| content := text c; hit_source := source c; score := s |} :: kept).
      split; [rewrite <- app_assoc; reflexivity | cbn; rewrite Hk; reflexivity].
    + exact (IH _ _ H).
Qed.

Lemma filter_Qle_bool_floor (t : Q) (l : list Q) :
  Forall (fun s => t <= s) (List.filter (Qle_bool t) l) /\
  (length (List.filter (Qle_bool t) l) <= length l)%nat.
Proof.
  induction l as [| s l [IHf IHl]]; cbn; [split; [constructor | lia] |].
  destruct (Qle_bool t s) eqn:Hs; cbn; split; try lia; try assumption.
  constructor; [apply Qle_bool_iff; exact Hs | exact IHf].
Qed.

(** When the collaborators answer and every kept index is a valid one,
    [retrieve] returns. *)
Lemma filter_by_threshold_returns (self : RAGRetriever) (pairs : list (Q * Z)) :
  Forall (fun p => exists c, index (chunks self) (snd p) = inr c) pairs ->
  forall acc, exists res, filter_by_threshold self pairs acc = inr res.
Proof.
  induction 1 as [| [s idx] rest [c Hc] _ IH]; intros acc; cbn.
  - exists acc. reflexivity.
  - destruct (Qle_bool (threshold self) s); [| apply IH].
    cbn in Hc. rewrite Hc. cbn. apply IH.
Qed.

(** C6: every chunk [retrieve] returns scores at least the retriever's
    floor, there are at most [k] of them (the index answering with at most
    [k] neighbours), and they are exactly the neighbours at or above the
    floor, in order: the rest is dropped and nothing is added. *)
Theorem C6_retrieve_floor_and_length (self : RAGRetriever) (query : string)
    (k : nat) (res : list hit) :
  (forall v pairs, search v k = inr pairs -> (length pairs <= k)%nat) ->
  retrieve vector encode search self query k = inr res ->
  Forall (fun h => threshold self <= score h) res /\
  (length res <= k)%nat /\
  exists v pairs,
    encode query = inr v /\ search v k = inr pairs /\
    List.map score res = List.filter (Qle_bool (threshold self)) (List.map fst pairs).
Proof.
  intros Hk H. unfold retrieve in H.
  destruct (encode query) as [e | v] eqn:Ev; cbn in H; [discriminate |].
  destruct (search v k) as [e | pairs] eqn:Es; cbn in H; [discriminate |].
  destruct (filter_by_threshold_inv _ _ _ _ H) as (kept & -> & Hkept).
  cbn [app] in *.
  destruct (filter_Qle_bool_floor (threshold self) (List.map fst pairs)) as [Hf Hl].
  rewrite <- Hkept in Hf, Hl. rewrite !length_map in Hl.
  split; [| split].
  - exact (proj1 (List.Forall_map score _ kept) Hf).
  - specialize (Hk v pairs Es). lia.
  - exists v, pairs. auto.
Qed.

(** C7 (amended): when the embedding or the index search raises,
    [retrieve] has no handler and raises the same exception; the call site
    wraps it in [try ... except Exception] and goes on with [chunks = []],
    so it is past the call site that a failure becomes "no chunks". *)
Theorem C7_retrieve_failure_caught_by_caller (self : RAGRetriever)
    (query : string) (e : exn) :
  encode query = inl e \/
  (exists v, encode query = inr v /\ search v 5 = inl e) ->
  retrieve vector encode search self query 5 = inl e /\
  (is_Exception e = true ->
   retrieve_or_empty vector encode search self query = inr []).
Proof.
  intros H.
  assert (R : retrieve vector encode search self query 5 = inl e).
  { unfold retrieve. destruct H as [-> | (v & -> & Hs)]; cbn; [| rewrite Hs]; reflexivity. }
  split; [exact R |].
  intros He. unfold retrieve_or_empty, try_except. rewrite R, He. reflexivity.
Qed.

End RetrieverFacts.

Lemma C6_retrieve_floor_and_length_witness :
  let self := {| RAG.chunks := [ {| RAG.text := "Factoring"; RAG.source := "algebra.md" |};
                                 {| RAG.text := "Zero product"; RAG.source := "algebra.md" |};
                                 {| RAG.text := "Verify roots"; RAG.source := "jee_tips.md" |} ];
                 RAG.threshold := 0.5%Q |} in
  let search := fun (_ : unit) (k : nat) =>
                  inr (firstn k [(0.92%Q, 0%Z); (0.88%Q, 1%Z); (0.31%Q, 2%Z)]) in
  let res := [ {| RAG.content := "Factoring"; RAG.hit_source := "algebra.md"; RAG.score := 0.92%Q |};
               {| RAG.content := "Zero product"; RAG.hit_source := "algebra.md"; RAG.score := 0.88%Q |} ] in
  RAG.retrieve unit (fun _ => inr tt) search self "quadratic" 3 = inr res /\
  Forall (fun h => (RAG.threshold self <= RAG.score h)%Q) res /\
  (length res <= 3)%nat.
Proof.
  intros self search res.
  assert (R : RAG.retrieve unit (fun _ => inr tt) search self "quadratic" 3 = inr res)
    by reflexivity.
  split; [exact R |].
  destruct (C6_retrieve_floor_and_length unit (fun _ => inr tt) search self
              "quadratic" 3 res) as (Hf & Hl & _).
  - intros v pairs E. inversion E. cbn. lia.
  - exact R.
  - split; assumption.
Defined.

Lemma C7_retrieve_failure_caught_by_caller_witness :
  let self := {| RAG.chunks := []; RAG.threshold := 0.5%Q |} in
  RAG.retrieve_or_empty unit (fun _ => inl RuntimeError) (fun _ _ => inr []) self "quadratic"
  = inr [].
Proof.
  intros self.
  apply (C7_retrieve_failure_caught_by_caller unit (fun _ => inl RuntimeError)
           (fun _ _ => inr []) self "quadratic" RuntimeError).
  - left. reflexivity.
  - reflexivity.
Defined.

(** Nothing pads the result: with every neighbour under the floor it is
    empty. *)
Remark retrieve_may_be_empty :
  RAG.retrieve unit (fun _ => inr tt)
    (fun _ k => inr (firstn k [(0.41%Q, 0%Z); (0.31%Q, 1%Z)]))
    {| RAG.chunks := [ {| RAG.text := "Factoring"; RAG.source := "algebra.md" |};
                       {| RAG.text := "Zero product"; RAG.source := "algebra.md" |} ];
       RAG.threshold := 0.5%Q |} "limits" 5
  = inr [].
Proof. reflexivity. Qed.

(** C7 as stated fails: with an embedding call that raises, [retrieve]
    raises too instead of returning the empty list. *)
Lemma C7_retrieve_counterexample :
  RAG.retrieve unit (fun _ => inl RuntimeError) (fun _ _ => inr [])
    {| RAG.chunks := []; RAG.threshold := 0.5%Q |} "quadratic" 5
  = inl RuntimeError.
Proof. reflexivity. Qed.

(** With both collaborators answering and valid indices, [retrieve]
    returns a list. *)
Lemma retrieve_returns (vector : Type) (encode : string -> result vector)
    (search : vector -> nat -> result (list (Q * Z)))
    (self : RAG.RAGRetriever) (query : string) (k : nat)
    (v : vector) (pairs : list (Q * Z)) :
  encode query = inr v ->
  search v k = inr pairs ->
  Forall (fun p => exists c, index (RAG.chunks self) (snd p) = inr c) pairs ->
  exists res, RAG.retrieve vector encode search self query k = inr res.
Proof.
  intros Ev Es Hp. unfold RAG.retrieve. rewrite Ev. cbn. rewrite Es. cbn.
  apply filter_by_threshold_returns. exact Hp.
Qed.

(** ** The solver's LLM call *)

Section SolverFacts.
Import Solver.
Variable generate_json : string -> result (gmap string value).
Variable generate : string -> result string.
Variable _parse_text_response : string -> result (gmap string value).

Local Abbreviation generate_solution :=
  (generate_solution generate_json generate _parse_text_response).

(** C3 (amended): a structured answer is used as it is; when
    [generate_json] raises an [Exception] the solver asks for free text
    and parses it with [_parse_text_response]; that fallback has no handler
    of its own, so what [generate] or [_parse_text_response] raises there
    propagates, and no placeholder solution is built. *)
Theorem C3_solver_single_fallback (prompt : string) :
  (forall solution,
     generate_json prompt = inr solution ->
     generate_solution prompt = inr solution) /\
  (forall json_error text_response,
     generate_json prompt = inl json_error -> is_Exception json_error = true ->
     generate prompt = inr text_response ->
     generate_solution prompt = _parse_text_response text_response) /\
  (forall json_error e,
     generate_json prompt = inl json_error -> is_Exception json_error = true ->
     generate prompt = inl e ->
     generate_solution prompt = inl e).
Proof.
  unfold Solver.generate_solution, try_except.
  repeat split.
  - intros solution ->. reflexivity.
  - intros json_error text_response -> -> ->. reflexivity.
  - intros json_error e -> -> ->. reflexivity.
Qed.

End SolverFacts.

(** C3 as stated fails: when the structured call and the free-text call
    both raise, the solver's block raises; it returns no solution, and so
    none with confidence zero. The same holds when the free-text answer
    does not parse. *)
Lemma C3_solver_counterexample :
  Solver.generate_solution (fun _ => inl ValueError) (fun _ => inl RuntimeError)
    (fun _ => inr ∅) "Solve x^2 - 5x + 6 = 0" = inl RuntimeError /\
  Solver.generate_solution (fun _ => inl ValueError) (fun _ => inr "no idea")
    (fun _ => inl ValueError) "Solve x^2 - 5x + 6 = 0" = inl ValueError /\
  ~ (exists solution,
       Solver.generate_solution (fun _ => inl ValueError) (fun _ => inl RuntimeError)
         (fun _ => inr ∅) "Solve x^2 - 5x + 6 = 0" = inr solution /\
       Solver.zero_confidence solution).
Proof.
  repeat split. intros (solution & H & _). discriminate H.
Qed.

Lemma C3_solver_single_fallback_witness :
  Solver.generate_solution (fun _ => inl ValueError) (fun _ => inl RuntimeError)
    (fun _ => inr ∅) "Solve x^2 - 5x + 6 = 0" = inl RuntimeError.
Proof.
  apply (C3_solver_single_fallback (fun _ => inl ValueError) (fun _ => inl RuntimeError)
           (fun _ => inr ∅) "Solve x^2 - 5x + 6 = 0") with (json_error := ValueError);
    reflexivity.
Defined.

(** ** The verifier's trigger and the orchestrator *)

Section PipelineFacts.
Import Verifier Pipeline.
Local Open Scope Q_scope.
Variable parse : string -> result (gmap string value).
Variable route : gmap string value -> result (gmap string value).
Variable solve : string -> gmap string value -> result (gmap string value).
Variable explain : gmap string value -> result (gmap string value).

Lemma Qlt_bool_iff (x y : Q) : Qlt_bool x y = true <-> x < y.
Proof.
  unfold Qlt_bool. rewrite negb_true_iff. split.
  - intros H. apply Qnot_le_lt. intros L. apply Qle_bool_iff in L. congruence.
  - intros H. destruct (Qle_bool y x) eqn:E; [| reflexivity].
    apply Qle_bool_iff in E. exfalso. apply (Qlt_not_le _ _ H E).
Qed.

(** Under the threshold the verifier answers "uncertain" and asks for a
    human; at or above it, it goes on. *)
Lemma hitl_trigger_below (otherwise : Q -> gmap string value)
    (self : VerifierAgent) (final_confidence : Q) :
  final_confidence < hitl_threshold self ->
  hitl_trigger otherwise self final_confidence = hitl_verdict.
Proof.
  intros H. unfold hitl_trigger. apply Qlt_bool_iff in H. rewrite H. reflexivity.
Qed.

Lemma hitl_trigger_above (otherwise : Q -> gmap string value)
    (self : VerifierAgent) (final_confidence : Q) :
  hitl_threshold self <= final_confidence ->
  hitl_trigger otherwise self final_confidence = otherwise final_confidence.
Proof.
  intros H. unfold hitl_trigger.
  destruct (Qlt_bool final_confidence (hitl_threshold self)) eqn:E; [| reflexivity].
  apply Qlt_bool_iff in E. exfalso. apply (Qlt_not_le _ _ E H).
Qed.



(** An exception raised by the solver leaves the orchestrator as it is:
    nothing in [run_agent_pipeline] catches it. *)
Lemma run_agent_pipeline_solver_raises
    (verify : gmap string value -> result (gmap string value))
    (problem_text source : string) (settings : gmap string value)
    (parsed route' : gmap string value) (e : exn) :
  parse problem_text = inr parsed ->
  route parsed = inr route' ->
  solve problem_text route' = inl e ->
  run_agent_pipeline parse route solve verify explain problem_text source settings [] =
  (inl e, [Parser; Router; SolverA]).
Proof.
  intros Hp Hr Hs. unfold run_agent_pipeline, call, mbind, M_bind, mret, M_ret.
  rewrite Hp, Hr, Hs. reflexivity.
Qed.



End PipelineFacts.



(** ** The memory store *)

Section MemoryFacts.
Import Memory.
Variable normalize : string -> string.
Variable digest : string -> string.

Local Abbreviation fingerprint := (fingerprint normalize digest).
Local Abbreviation save := (save normalize digest).
Local Abbreviation entries_for := (entries_for normalize digest).

(** The fingerprint depends on the text through its normal form only. *)
Lemma fingerprint_normalized (text text' : string) :
  normalize text' = normalize text -> fingerprint text' = fingerprint text.
Proof. unfold Memory.fingerprint. intros ->. reflexivity. Qed.

Section Update.
Variable h sol src : string.
Variable conf : Q.

Local Abbreviation upd :=
  (fun r' : problem_row => if has_hash h r' then update_row sol conf src r' else r').

Lemma upd_hash (r : problem_row) : problem_hash (upd r) = problem_hash r.
Proof. cbv beta. destruct (has_hash h r); reflexivity. Qed.

Lemma upd_hashes (db : list problem_row) :
  List.map problem_hash (List.map upd db) = List.map problem_hash db.
Proof. rewrite List.map_map. apply List.map_ext. exact upd_hash. Qed.

Lemma find_upd (db : list problem_row) :
  List.find (has_hash h) (List.map upd db) =
  match List.find (has_hash h) db with
  | Some r => Some (update_row sol conf src r)
  | None => None
  end.
Proof.
  induction db as [| r db IH]; [reflexivity |].
  cbn [List.map List.find]. unfold has_hash at 1. rewrite upd_hash.
  fold (has_hash h r). destruct (has_hash h r) eqn:E; [reflexivity | exact IH].
Qed.
End Update.

Lemma find_app_new (h : string) (db : list problem_row) (x : problem_row) :
  List.find (has_hash h) db = None -> has_hash h x = true ->
  List.find (has_hash h) (db ++ [x]) = Some x.
Proof.
  intros Hn Hx. induction db as [| r db IH]; cbn in *; [rewrite Hx; reflexivity |].
  destruct (has_hash h r); [discriminate | exact (IH Hn)].
Qed.

Lemma find_none_fresh (h : string) (db : list problem_row) :
  List.find (has_hash h) db = None -> ~ In h (List.map problem_hash db).
Proof.
  induction db as [| r db IH]; cbn; [tauto |].
  destruct (has_hash h r) eqn:E; [discriminate |].
  intros Hn [Heq | Hin]; [| exact (IH Hn Hin)].
  unfold has_hash in E. apply String.eqb_neq in E. congruence.
Qed.

Lemma filter_fresh (h : string) (db : list problem_row) :
  ~ In h (List.map problem_hash db) -> List.filter (has_hash h) db = [].
Proof.
  induction db as [| r db IH]; cbn; [reflexivity |]. intros Hn.
  destruct (has_hash h r) eqn:E.
  - unfold has_hash in E. apply String.eqb_eq in E. tauto.
  - apply IH. tauto.
Qed.

(** In a store without duplicate hashes the first row found for a hash is
    the only one. *)
Lemma filter_unique (h : string) (db : list problem_row) (r : problem_row) :
  unique_hashes db -> List.find (has_hash h) db = Some r ->
  List.filter (has_hash h) db = [r].
Proof.
  unfold unique_hashes. induction db as [| r0 db IH]; cbn; [discriminate |].
  intros Hnd Hf. inversion Hnd as [| ? ? Hnotin Hnd']; subst.
  destruct (has_hash h r0) eqn:E.
  - inversion Hf; subst. f_equal. apply filter_fresh.
    unfold has_hash in E. apply String.eqb_eq in E. rewrite <- E.
    intros Hin. apply Hnotin. apply list_elem_of_In. exact Hin.
  - exact (IH Hnd' Hf).
Qed.

(** A save on a stored fingerprint updates the row in place. *)
Lemma save_stored (new_id : string) (now : Z) (text sol : string) (conf : Q)
    (src : string) (db : list problem_row) (r : problem_row) :
  List.find (has_hash (fingerprint text)) db = Some r ->
  let out := save new_id now text sol conf src db in
  fst out = id r /\
  length (snd out) = length db /\
  List.map problem_hash (snd out) = List.map problem_hash db /\
  List.find (has_hash (fingerprint text)) (snd out) = Some (update_row sol conf src r).
Proof.
  intros Hf. unfold Memory.save. rewrite Hf. cbn [fst snd].
  rewrite List.length_map, upd_hashes, find_upd, Hf. auto.
Qed.

(** After any save the text has a row, the one whose id is returned, and
    hashes stay unique. *)
Lemma save_stores (new_id : string) (now : Z) (text sol : string) (conf : Q)
    (src : string) (db : list problem_row) :
  unique_hashes db ->
  let out := save new_id now text sol conf src db in
  unique_hashes (snd out) /\
  exists r, List.find (has_hash (fingerprint text)) (snd out) = Some r /\
            id r = fst out /\ solution r = sol /\ confidence r = conf.
Proof.
  intros Hnd. destruct (List.find (has_hash (fingerprint text)) db) as [r |] eqn:Hf.
  - destruct (save_stored new_id now text sol conf src db r Hf) as (Hid & _ & Hh & Hfind).
    cbv zeta. split; [unfold unique_hashes; rewrite Hh; exact Hnd |].
    exists (update_row sol conf src r). rewrite Hid. auto.
  - cbv zeta. unfold Memory.save. rewrite Hf. cbn [fst snd]. split.
    + unfold unique_hashes. rewrite List.map_app. cbn.
      apply NoDup_app. split; [exact Hnd |]. split; [| apply NoDup_singleton].
      intros x Hx Hx'. apply list_elem_of_In in Hx, Hx'.
      destruct Hx' as [<- | []]. exact (find_none_fresh _ _ Hf Hx).
    + eexists. split; [apply find_app_new; [exact Hf |] |].
      * unfold has_hash. cbn. apply String.eqb_refl.
      * auto.
Qed.

(** C9: saving is idempotent by fingerprint. The fingerprint is a function
    of the normalized text; a second save of a text with the same normal
    form returns the id of the first, leaves the number of rows as it was,
    and the store then holds exactly one row for the text, carrying the
    second save's solution and confidence. *)
Theorem C9_save_idempotent (id1 id2 : string) (now1 now2 : Z)
    (text text' sol1 sol2 : string) (conf1 conf2 : Q) (src1 src2 : string)
    (db : list problem_row) :
  unique_hashes db ->
  normalize text' = normalize text ->
  let first := save id1 now1 text sol1 conf1 src1 db in
  let second := save id2 now2 text' sol2 conf2 src2 (snd first) in
  fingerprint text' = fingerprint text /\
  fst second = fst first /\
  length (snd second) = length (snd first) /\
  unique_hashes (snd second) /\
  exists r, entries_for text (snd second) = [r] /\
            id r = fst first /\ solution r = sol2 /\ confidence r = conf2.
Proof.
  intros Hnd Hnorm first second.
  pose proof (fingerprint_normalized _ _ Hnorm) as Hfp.
  destruct (save_stores id1 now1 text sol1 conf1 src1 db Hnd) as (Hnd1 & r1 & Hf1 & Hid1 & _).
  fold first in Hnd1, Hf1, Hid1.
  rewrite <- Hfp in Hf1.
  destruct (save_stored id2 now2 text' sol2 conf2 src2 (snd first) r1 Hf1)
    as (Hid2 & Hlen & Hh & Hf2).
  fold second in Hid2, Hlen, Hh, Hf2.
  assert (Hnd2 : unique_hashes (snd second))
    by (unfold unique_hashes; rewrite Hh; exact Hnd1).
  split; [exact Hfp |]. split; [congruence |]. split; [exact Hlen |].
  split; [exact Hnd2 |].
  exists (update_row sol2 conf2 src2 r1). split.
  - unfold Memory.entries_for. rewrite <- Hfp. apply filter_unique; assumption.
  - cbn. auto.
Qed.

End MemoryFacts.

Lemma C9_save_idempotent_witness :
  let normalize := fun s : string => s in
  let digest := fun s : string => String.append "h:" s in
  let first := Memory.save normalize digest "uuid-1" 1 "Solve x^2" "x=2,3" 0.93%Q "text" [] in
  let second := Memory.save normalize digest "uuid-2" 2 "Solve x^2" "x=3,2" 0.95%Q "text" (snd first) in
  fst second = "uuid-1" /\ length (snd second) = 1%nat.
Proof.
  intros normalize digest first second.
  destruct (C9_save_idempotent normalize digest "uuid-1" "uuid-2" 1 2
              "Solve x^2" "Solve x^2" "x=2,3" "x=3,2" 0.93%Q 0.95%Q "text" "text" [])
    as (_ & Hid & Hlen & _).
  - constructor.
  - reflexivity.
  - split; [exact Hid | exact Hlen].
Defined.

(** * Part III: further properties of the code *)

(** ** The solver's score *)

Section SolverScoreFacts.
Import Confidence.
Local Open Scope Q_scope.
Variable float_of_str : string -> option Q.

(** The score as a number, once [float()] has taken the confidence. *)
Lemma solver_final_confidence_value (has_context has_citations verified : bool)
    (solution : gmap string value) (c : Q) :
  float float_of_str (default (VFloat 0.7) (solution !! "confidence")) = inr c ->
  exists score,
    solver_final_confidence float_of_str has_context has_citations verified solution
      = inr score /\
    score == ((if has_context then 0.9 else 0.3) + (if has_citations then 0.9 else 0.4)
              + c + (if verified then 0.9 else 0.6)) * (1 # 4).
Proof.
  intros Hc. unfold solver_final_confidence, make_confidence_factors.
  rewrite Hc. cbn [mbind result_bind mret result_ret].
  eexists. split; [reflexivity |]. rewrite calculate_confidence_mean. reflexivity.
Qed.

(** X1: with a self-reported confidence between 0 and 1 the solver's score
    stays strictly between 0.32 and 0.93, whatever the three checks say: it
    never reports certainty. (The exact extremes are 0.325 and 0.925; the
    bounds stated leave room for the rounding of the sum.) *)
Theorem solver_score_range (has_context has_citations verified : bool)
    (solution : gmap string value) (c : Q) :
  float float_of_str (default (VFloat 0.7) (solution !! "confidence")) = inr c ->
  0 <= c <= 1 ->
  exists score,
    solver_final_confidence float_of_str has_context has_citations verified solution
      = inr score /\
    0.32 < score < 0.93.
Proof.
  intros Hc Hr.
  destruct (solver_final_confidence_value has_context has_citations verified _ _ Hc)
    as (score & Hs & Hv).
  exists score. split; [exact Hs |]. rewrite Hv.
  destruct has_context, has_citations, verified; lra.
Qed.

(** X2: a solution with neither retrieved context nor citations stays
    under 0.70 for every self-reported confidence up to 1, verified or
    not. *)
Theorem solver_score_needs_grounding (verified : bool)
    (solution : gmap string value) (c : Q) :
  float float_of_str (default (VFloat 0.7) (solution !! "confidence")) = inr c ->
  c <= 1 ->
  exists score,
    solver_final_confidence float_of_str false false verified solution = inr score /\
    score < 0.70.
Proof.
  intros Hc Hr.
  destruct (solver_final_confidence_value false false verified _ _ Hc)
    as (score & Hs & Hv).
  exists score. split; [exact Hs |]. rewrite Hv. destruct verified; lra.
Qed.


(** X4: with a self-reported confidence between 0 and 1, turning on any
    one check raises the solver's score, whatever the other two say: by
    more than 0.14 for retrieved context, 0.12 for citations and 0.07 for
    verification. (The exact steps are 0.15, 0.125 and 0.075; the bounds
    stated leave room for the rounding of the sum.) *)
Theorem solver_score_steps (b1 b2 : bool) (solution : gmap string value) (c : Q) :
  float float_of_str (default (VFloat 0.7) (solution !! "confidence")) = inr c ->
  0 <= c <= 1 ->
  (exists s s',
     solver_final_confidence float_of_str false b1 b2 solution = inr s /\
     solver_final_confidence float_of_str true b1 b2 solution = inr s' /\
     s + 0.14 < s') /\
  (exists s s',
     solver_final_confidence float_of_str b1 false b2 solution = inr s /\
     solver_final_confidence float_of_str b1 true b2 solution = inr s' /\
     s + 0.12 < s') /\
  (exists s s',
     solver_final_confidence float_of_str b1 b2 false solution = inr s /\
     solver_final_confidence float_of_str b1 b2 true solution = inr s' /\
     s + 0.07 < s').
Proof.
  intros Hc _.
  destruct (solver_final_confidence_value false b1 b2 _ _ Hc) as (s0 & H0 & V0).
  destruct (solver_final_confidence_value true b1 b2 _ _ Hc) as (s1 & H1 & V1).
  destruct (solver_final_confidence_value b1 false b2 _ _ Hc) as (s2 & H2 & V2).
  destruct (solver_final_confidence_value b1 true b2 _ _ Hc) as (s3 & H3 & V3).
  destruct (solver_final_confidence_value b1 b2 false _ _ Hc) as (s4 & H4 & V4).
  destruct (solver_final_confidence_value b1 b2 true _ _ Hc) as (s5 & H5 & V5).
  split; [exists s0, s1 | split; [exists s2, s3 | exists s4, s5]];
    (split; [assumption | split; [assumption |]]).
  - rewrite V1, V0. lra.
  - rewrite V3, V2. lra.
  - rewrite V5, V4. lra.
Qed.

End SolverScoreFacts.

Lemma solver_score_range_witness :
  exists score,
    Confidence.solver_final_confidence (fun _ => None) true false true
      {[ "confidence" := VFloat 0.92%Q ]} = inr score /\
    (0.32 < score < 0.93)%Q.
Proof.
  apply (solver_score_range (fun _ => None) true false true
           {[ "confidence" := VFloat 0.92%Q ]} 0.92%Q).
  - reflexivity.
  - split; vm_compute; discriminate.
Defined.

Lemma solver_score_needs_grounding_witness :
  exists score,
    Confidence.solver_final_confidence (fun _ => None) false false true
      {[ "confidence" := VInt 1 ]} = inr score /\
    (score < 0.70)%Q.
Proof.
  apply (solver_score_needs_grounding (fun _ => None) true
           {[ "confidence" := VInt 1 ]} 1%Q).
  - reflexivity.
  - vm_compute. discriminate.
Defined.


Lemma solver_score_steps_witness :
  exists s s',
    Confidence.solver_final_confidence (fun _ => None) false true false
      {[ "confidence" := VFloat 0.8%Q ]} = inr s /\
    Confidence.solver_final_confidence (fun _ => None) true true false
      {[ "confidence" := VFloat 0.8%Q ]} = inr s' /\
    (s + 0.14 < s')%Q.
Proof.
  apply (solver_score_steps (fun _ => None) true false
           {[ "confidence" := VFloat 0.8%Q ]} 0.8%Q).
  - reflexivity.
  - split; vm_compute; discriminate.
Defined.

(** ** The coercion, further *)

Section CoercionMore.
Import Confidence.
Local Open Scope Q_scope.
Variable float_of_str : string -> option Q.

(** X5: whatever the README's coercion (the version with the [elif])
    returns is an [int], a [float] or a [bool]; [float()] of it can no
    longer raise [TypeError] or [ValueError], the two ways a malformed
    confidence could break the score. *)
Theorem coerce_confidence_numeric (solution_json : gmap string value) (v : value) :
  coerce_confidence float_of_str solution_json = inr v ->
  isinstance_int_float v = true /\
  (exists q, number v = Some q) /\
  float float_of_str v <> inl TypeError /\
  float float_of_str v <> inl ValueError.
Proof.
  rewrite coerce_confidence_cases. intros H.
  assert (N : isinstance_int_float v = true).
  { destruct (default (VFloat 0.7) (solution_json !! "confidence"))
      as [| b | z | q | s | [| x l] | [| x l] | d];
      try (inversion H; reflexivity);
      destruct (float float_of_str x); cbn in H; inversion H; reflexivity. }
  split; [exact N |].
  destruct v as [| b | z | q | s | l | l | d]; try discriminate N; cbn.
  - repeat split; [eexists; reflexivity | discriminate | discriminate].
  - split; [eexists; reflexivity |].
    destruct (Z.abs z <? float_max_int)%Z; split; discriminate.
  - repeat split; [eexists; reflexivity | discriminate | discriminate].
Qed.

(** X6: the [elif] of the README's version matters exactly for a value
    that is neither a sequence nor a number: the shorter version of the
    documentation hands such a value on unchanged, the README's replaces
    it by 0.7; everywhere else the two agree. *)
Theorem coerce_confidence_short_differs (solution : gmap string value) :
  (forall c, solution !! "confidence" = Some c ->
             isinstance_list_tuple c = false -> isinstance_int_float c = false ->
             coerce_confidence_short float_of_str solution = inr c /\
             coerce_confidence float_of_str solution = inr (VFloat 0.7)) /\
  ((forall c, solution !! "confidence" = Some c ->
              isinstance_list_tuple c = true \/ isinstance_int_float c = true) ->
   coerce_confidence_short float_of_str solution =
   coerce_confidence float_of_str solution).
Proof.
  split.
  - intros c Hc Hs Hn. unfold coerce_confidence_short, coerce_confidence.
    rewrite Hc. cbn [default id]. rewrite Hs, Hn. split; reflexivity.
  - intros H. unfold coerce_confidence_short, coerce_confidence.
    destruct (solution !! "confidence") as [c |] eqn:E; [| reflexivity].
    cbn [default id]. destruct (H c eq_refl) as [Hs | Hn].
    + rewrite Hs. reflexivity.
    + rewrite Hn. reflexivity.
Qed.

(** X7: the coercion is idempotent: a solution whose confidence has been
    replaced by the coerced one coerces to the same value. *)
Theorem coerce_confidence_idempotent (solution_json : gmap string value) (v : value) :
  coerce_confidence float_of_str solution_json = inr v ->
  coerce_confidence float_of_str (<["confidence" := v]> solution_json) = inr v.
Proof.
  intros H. destruct (coerce_confidence_numeric _ _ H) as (N & _).
  unfold coerce_confidence. rewrite lookup_insert_eq. cbn [default id].
  destruct v as [| b | z | q | s | l | l | d]; try discriminate N; reflexivity.
Qed.

End CoercionMore.

Lemma coerce_confidence_numeric_witness :
  Py.isinstance_int_float (VFloat 0.95%Q) = true /\
  (exists q, Confidence.number (VFloat 0.95%Q) = Some q) /\
  Py.float (fun _ => None) (VFloat 0.95%Q) <> inl TypeError /\
  Py.float (fun _ => None) (VFloat 0.95%Q) <> inl ValueError.
Proof.
  apply (coerce_confidence_numeric (fun _ => None)
           {[ "confidence" := VTuple [VFloat 0.95%Q; VStr "high"] ]}).
  reflexivity.
Defined.

Lemma coerce_confidence_short_differs_witness :
  Confidence.coerce_confidence_short (fun _ => None) {[ "confidence" := VStr "high" ]}
    = inr (VStr "high") /\
  Confidence.coerce_confidence (fun _ => None) {[ "confidence" := VStr "high" ]}
    = inr (VFloat 0.7%Q).
Proof.
  apply (proj1 (coerce_confidence_short_differs (fun _ => None)
                  {[ "confidence" := VStr "high" ]}) (VStr "high"));
    reflexivity.
Defined.

Lemma coerce_confidence_idempotent_witness :
  Confidence.coerce_confidence (fun _ => None)
    (<["confidence" := VFloat 0.95%Q]> {[ "confidence" := VList [VFloat 0.95%Q] ]})
  = inr (VFloat 0.95%Q).
Proof.
  apply (coerce_confidence_idempotent (fun _ => None)
           {[ "confidence" := VList [VFloat 0.95%Q] ]}).
  reflexivity.
Defined.

(** ** The retriever, further *)

Section RetrieverMore.
Import RAG Hits.
Local Open Scope Q_scope.
Variable vector : Type.
Variable encode : string -> result vector.
Variable search : vector -> nat -> result (list (Q * Z)).

Lemma index_returns_iff {A : Type} (l : list A) (i : Z) :
  (exists x, index l i = inr x) <->
  (- Z.of_nat (length l) <= i < Z.of_nat (length l))%Z.
Proof.
  unfold index. set (n := Z.of_nat (length l)).
  destruct (Z.ltb_spec i 0) as [Hi | Hi].
  - destruct (Z.leb_spec 0 (n + i)) as [H0 | H0]; cbn [andb].
    + destruct (Z.ltb_spec (n + i) n) as [H1 | H1]; [| lia].
      destruct (lookup_lt_is_Some_2 l (Z.to_nat (n + i))) as [x Hx]; [lia |].
      rewrite Hx. split; [lia | eauto].
    + split; [intros [x Hx]; discriminate | lia].
  - destruct (Z.leb_spec 0 i) as [H0 | H0]; [| lia]. cbn [andb].
    destruct (Z.ltb_spec i n) as [H1 | H1].
    + destruct (lookup_lt_is_Some_2 l (Z.to_nat i)) as [x Hx]; [lia |].
      rewrite Hx. split; [lia | eauto].
    + split; [intros [x Hx]; discriminate | lia].
Qed.

Lemma index_raises {A : Type} (l : list A) (i : Z) (e : exn) :
  index l i = inl e -> e = IndexError.
Proof.
  unfold index.
  destruct ((0 <=? _) && _)%Z; [destruct (l !! _) |]; intros H; inversion H; reflexivity.
Qed.

Lemma index_In {A : Type} (l : list A) (i : Z) (x : A) :
  index l i = inr x -> In x l.
Proof.
  unfold index.
  destruct ((0 <=? _) && _)%Z; [| discriminate].
  destruct (l !! _) as [y |] eqn:E; [| discriminate].
  intros H. inversion H; subst. apply list_elem_of_In.
  apply list_elem_of_lookup. eauto.
Qed.

Lemma index_last {A : Type} (l : list A) (x : A) : index (l ++ [x]) (-1) = inr x.
Proof.
  unfold index. rewrite length_app. cbn [length].
  change (-1 <? 0)%Z with true. cbv iota.
  replace (Z.of_nat (length l + 1) + -1)%Z with (Z.of_nat (length l)) by lia.
  destruct (Z.leb_spec 0 (Z.of_nat (length l))) as [_ | H]; [| lia].
  destruct (Z.ltb_spec (Z.of_nat (length l)) (Z.of_nat (length l + 1))) as [_ | H]; [| lia].
  cbn [andb]. rewrite Nat2Z.id.
  rewrite lookup_app_r by lia. rewrite Nat.sub_diag. reflexivity.
Qed.

Lemma map_result_Forall2 {A B : Type} (f : A -> result B) (l : list A) (ys : list B) :
  map_result f l = inr ys <-> Forall2 (fun x y => f x = inr y) l ys.
Proof.
  revert ys. induction l as [| x l IH]; intros ys; cbn.
  - split; [intros H; inversion H; constructor | intros H; inversion H; reflexivity].
  - destruct (f x) as [e | y] eqn:Ex; cbn.
    + split; [discriminate |].
      intros H. inversion H as [| ? y ? zs Hxy Hrest]; subst.
      rewrite Ex in Hxy. discriminate.
    + destruct (map_result f l) as [e | zs] eqn:El; cbn.
      * split; [discriminate |].
        intros H. inversion H as [| ? y' ? zs Hxy Hrest]; subst.
        apply IH in Hrest. discriminate.
      * split.
        -- intros H. inversion H; subst. constructor; [exact Ex | apply IH; reflexivity].
        -- intros H. inversion H as [| ? y' ? zs' Hxy Hrest]; subst.
           apply IH in Hrest. rewrite Ex in Hxy. inversion Hxy. inversion Hrest.
           reflexivity.
Qed.

Lemma map_result_raises {A B : Type} (f : A -> result B) (l : list A) (e : exn) :
  map_result f l = inl e -> exists x, In x l /\ f x = inl e.
Proof.
  induction l as [| x l IH]; cbn; [discriminate |].
  destruct (f x) as [e' | y] eqn:Ex; cbn.
  - intros H. inversion H; subst. exists x. auto.
  - destruct (map_result f l) as [e' | zs]; cbn; [| discriminate].
    intros H. inversion H; subst. destruct (IH eq_refl) as (x' & Hin & Hx'). eauto.
Qed.

(** The loop, as one pass over the kept pairs. *)
Lemma filter_by_threshold_eq (self : RAGRetriever) (pairs : list (Q * Z)) :
  forall acc,
    filter_by_threshold self pairs acc =
    (hits ← map_result (hit_at self) (kept self pairs); mret (acc ++ hits)).
Proof.
  unfold kept. induction pairs as [| [s idx] rest IH]; intros acc.
  - cbn. rewrite app_nil_r. reflexivity.
  - cbn [filter_by_threshold List.filter fst].
    destruct (Qle_bool (threshold self) s); [| apply IH].
    cbn [map_result].
    destruct (index (chunks self) idx) as [e | c] eqn:E.
    + assert (Hh : hit_at self (s, idx) = inl e)
        by (unfold hit_at; cbn [snd]; rewrite E; reflexivity).
      rewrite Hh. reflexivity.
    + assert (Hh : hit_at self (s, idx) =
                   inr {| content := text c; hit_source := source c; score := s |})
        by (unfold hit_at; cbn [snd]; rewrite E; reflexivity).
      rewrite Hh. cbn [mbind result_bind]. rewrite IH.
      destruct (map_result (hit_at self) _) as [e | hits]; cbn; [reflexivity |].
      rewrite <- app_assoc. reflexivity.
Qed.

Lemma retrieve_eq (self : RAGRetriever) (query : string) (k : nat)
    (v : vector) (pairs : list (Q * Z)) :
  encode query = inr v -> search v k = inr pairs ->
  retrieve vector encode search self query k =
  map_result (hit_at self) (kept self pairs).
Proof.
  intros Ev Es. unfold retrieve. rewrite Ev. cbn. rewrite Es. cbn.
  rewrite filter_by_threshold_eq.
  destruct (map_result (hit_at self) (kept self pairs)); reflexivity.
Qed.

Lemma hit_at_returns_iff (self : RAGRetriever) (p : Q * Z) :
  (exists h, hit_at self p = inr h) <-> valid_index self (snd p).
Proof.
  unfold valid_index. rewrite <- index_returns_iff. unfold hit_at. split.
  - intros [h H]. destruct (index (chunks self) (snd p)) as [e | c]; [discriminate | eauto].
  - intros [c Hc]. rewrite Hc. cbn. eauto.
Qed.

(** X8: once the embedding and the search have answered, [retrieve]
    returns exactly when every neighbour at or above the threshold has an
    index the chunk list accepts (negative ones included); only then: what
    it raises otherwise is [IndexError]. Neighbours under the threshold are
    never looked up, so their indices do not matter. *)
Theorem retrieve_returns_iff (self : RAGRetriever) (query : string) (k : nat)
    (v : vector) (pairs : list (Q * Z)) :
  encode query = inr v -> search v k = inr pairs ->
  ((exists res, retrieve vector encode search self query k = inr res) <->
   Forall (fun p => threshold self <= fst p -> valid_index self (snd p)) pairs) /\
  (forall e, retrieve vector encode search self query k = inl e -> e = IndexError).
Proof.
  intros Ev Es. rewrite (retrieve_eq self query k v pairs Ev Es). split.
  - split.
    + intros [res H]. apply map_result_Forall2 in H.
      apply Forall_forall. intros p Hin Hle.
      assert (Hk : In p (kept self pairs)).
      { unfold kept. apply filter_In. split; [apply list_elem_of_In; exact Hin |].
        apply Qle_bool_iff. exact Hle. }
      apply hit_at_returns_iff.
      clear - H Hk. induction H as [| x y l ys Hxy _ IH]; [destruct Hk |].
      destruct Hk as [<- | Hk]; eauto.
    + intros H.
      assert (F : Forall (fun p => exists h, hit_at self p = inr h) (kept self pairs)).
      { apply Forall_forall. intros p Hin. apply list_elem_of_In in Hin.
        unfold kept in Hin. apply filter_In in Hin. destruct Hin as [Hin Hle].
        apply hit_at_returns_iff. rewrite Forall_forall in H.
        apply H; [apply list_elem_of_In; exact Hin | apply Qle_bool_iff; exact Hle]. }
      clear H. induction F as [| p l [h Hh] _ [res IH]]; [exists []; reflexivity |].
      exists (h :: res). cbn. rewrite Hh. cbn. rewrite IH. reflexivity.
  - intros e H. apply map_result_raises in H. destruct H as (p & _ & Hp).
    unfold hit_at in Hp. destruct (index (chunks self) (snd p)) as [e' | c] eqn:E; [| discriminate].
    cbn in Hp. inversion Hp; subst. exact (index_raises _ _ _ E).
Qed.

Lemma map_result_filter {A B : Type} (f : A -> result B) (P : A -> bool)
    (P' : B -> bool) (l : list A) (ys : list B) :
  (forall x y, f x = inr y -> P x = P' y) ->
  map_result f l = inr ys ->
  map_result f (List.filter P l) = inr (List.filter P' ys).
Proof.
  intros HP H. apply map_result_Forall2 in H. apply map_result_Forall2.
  induction H as [| x y l ys Hxy _ IH]; cbn; [constructor |].
  rewrite (HP x y Hxy). destruct (P' y); [constructor |]; assumption.
Qed.

(** X9: raising the threshold only drops hits: over the same chunks and
    the same neighbours, the result at a higher threshold is the result at
    the lower one filtered by the higher threshold, in the same order. *)
Theorem retrieve_threshold_monotone (self self' : RAGRetriever) (query : string)
    (k : nat) (res res' : list hit) :
  chunks self' = chunks self ->
  threshold self <= threshold self' ->
  retrieve vector encode search self query k = inr res ->
  retrieve vector encode search self' query k = inr res' ->
  res' = List.filter (fun h => Qle_bool (threshold self') (score h)) res.
Proof.
  intros Hc Ht H H'.
  assert (exists v pairs, encode query = inr v /\ search v k = inr pairs)
    as (v & pairs & Ev & Es).
  { unfold retrieve in H. destruct (encode query) as [e | v]; [discriminate |].
    cbn in H. destruct (search v k) as [e | pairs] eqn:Es; [discriminate |]. eauto. }
  rewrite (retrieve_eq self query k v pairs Ev Es) in H.
  rewrite (retrieve_eq self' query k v pairs Ev Es) in H'.
  assert (Hh : forall p, hit_at self' p = hit_at self p).
  { intros p. unfold hit_at. rewrite Hc. reflexivity. }
  assert (Hk : kept self' pairs =
               List.filter (fun p => Qle_bool (threshold self') (fst p)) (kept self pairs)).
  { unfold kept. clear - Ht. induction pairs as [| p rest IH]; [reflexivity |]. cbn.
    destruct (Qle_bool (threshold self') (fst p)) eqn:E'.
    - assert (E : Qle_bool (threshold self) (fst p) = true).
      { apply Qle_bool_iff. apply Qle_bool_iff in E'. lra. }
      rewrite E. cbn. rewrite E'. f_equal. exact IH.
    - destruct (Qle_bool (threshold self) (fst p)); cbn; [rewrite E' |]; exact IH. }
  rewrite Hk in H'.
  rewrite (map_result_filter (hit_at self') _
             (fun h => Qle_bool (threshold self') (score h)) (kept self pairs) res) in H'.
  - inversion H'. reflexivity.
  - intros p h Hp. unfold hit_at in Hp.
    destruct (index (chunks self') (snd p)); [discriminate |].
    cbn in Hp. inversion Hp. reflexivity.
  - rewrite <- H. clear - Hh. induction (kept self pairs) as [| p l IH]; [reflexivity |].
    cbn. rewrite Hh, IH. reflexivity.
Qed.

(** X10: [retrieve] makes nothing up: every hit it returns carries the
    text and the source of a chunk of the index, and the score of a
    neighbour the search returned. *)
Theorem retrieve_hits_are_chunks (self : RAGRetriever) (query : string) (k : nat)
    (res : list hit) (h : hit) :
  retrieve vector encode search self query k = inr res ->
  In h res ->
  (exists c, In c (chunks self) /\ content h = text c /\ hit_source h = source c) /\
  (exists v pairs idx, encode query = inr v /\ search v k = inr pairs /\
                       In (score h, idx) pairs).
Proof.
  intros H Hin.
  assert (exists v pairs, encode query = inr v /\ search v k = inr pairs)
    as (v & pairs & Ev & Es).
  { unfold retrieve in H. destruct (encode query) as [e | v]; [discriminate |].
    cbn in H. destruct (search v k) as [e | pairs] eqn:Es; [discriminate |]. eauto. }
  rewrite (retrieve_eq _ query k v pairs Ev Es) in H.
  apply map_result_Forall2 in H.
  assert (exists p, In p (kept self pairs) /\ hit_at self p = inr h) as (p & Hp & Hh).
  { clear - H Hin. induction H as [| x y l ys Hxy _ IH]; [destruct Hin |].
    destruct Hin as [<- | Hin]; [exists x; cbn; auto |].
    destruct (IH Hin) as (p & Hp & Hh). exists p. cbn. auto. }
  unfold hit_at in Hh. destruct (index (chunks self) (snd p)) as [e | c] eqn:E; [discriminate |].
  cbn in Hh. inversion Hh; subst. cbn. split.
  - exists c. split; [exact (index_In _ _ _ E) | auto].
  - exists v, pairs, (snd p). unfold kept in Hp. apply filter_In in Hp.
    destruct Hp as [Hp _]. destruct p. auto.
Qed.

(** X11: the guarded call site never lets an [Exception] of the retriever
    through, and what it goes on with, the retriever's hits or the empty
    list, is at most five hits, all at or above the threshold. *)
Theorem retrieve_or_empty_safe (self : RAGRetriever) (query : string) :
  (forall v pairs, search v 5%nat = inr pairs -> (length pairs <= 5)%nat) ->
  (forall e, retrieve_or_empty vector encode search self query = inl e ->
             is_Exception e = false) /\
  (forall res, retrieve_or_empty vector encode search self query = inr res ->
               Forall (fun h => threshold self <= score h) res /\
               (length res <= 5)%nat).
Proof.
  intros Hk. unfold retrieve_or_empty, try_except.
  destruct (retrieve vector encode search self query 5) as [e | res0] eqn:R.
  - destruct (is_Exception e) eqn:Ee; split.
    + intros e' H. discriminate.
    + intros res H. inversion H; subst. split; [constructor | cbn; lia].
    + intros e' H. inversion H; subst. exact Ee.
    + intros res H. discriminate.
  - split; [intros e H; discriminate |].
    intros res H. inversion H; subst. clear H.
    unfold retrieve in R.
    destruct (encode query) as [e | v]; [discriminate |]. cbn in R.
    destruct (search v 5%nat) as [e | pairs] eqn:Es; [discriminate |]. cbn in R.
    destruct (filter_by_threshold_inv _ _ _ _ R) as (hits & -> & Hs). cbn [app].
    destruct (filter_Qle_bool_floor (threshold self) (List.map fst pairs)) as [Hf Hl].
    rewrite <- Hs in Hf, Hl. rewrite !length_map in Hl.
    split; [exact (proj1 (List.Forall_map score _ hits) Hf) |].
    specialize (Hk v pairs Es). lia.
Qed.

(** X12: negative indices are taken as Python takes them: a neighbour at
    or above the threshold whose index is -1 (the filler of a search that
    found too few) does not raise, it comes back as a hit carrying the last
    chunk of the index. *)
Theorem retrieve_minus_one_is_last_chunk (self : RAGRetriever) (query : string)
    (k : nat) (res : list hit) (v : vector) (pairs : list (Q * Z))
    (s : Q) (cs : list chunk) (c : chunk) :
  encode query = inr v -> search v k = inr pairs ->
  chunks self = cs ++ [c] ->
  In (s, (-1)%Z) pairs -> threshold self <= s ->
  retrieve vector encode search self query k = inr res ->
  In {| content := text c; hit_source := source c; score := s |} res.
Proof.
  intros Ev Es Hc Hin Hs H.
  rewrite (retrieve_eq self query k v pairs Ev Es) in H.
  apply map_result_Forall2 in H.
  assert (Hk : In (s, (-1)%Z) (kept self pairs)).
  { unfold kept. apply filter_In. split; [exact Hin | apply Qle_bool_iff; exact Hs]. }
  assert (Hh : hit_at self (s, (-1)%Z) =
               inr {| content := text c; hit_source := source c; score := s |}).
  { unfold hit_at. cbn [snd fst]. rewrite Hc, index_last. reflexivity. }
  clear - H Hk Hh. induction H as [| x y l ys Hxy _ IH]; [destruct Hk |].
  destruct Hk as [-> | Hk]; [left; congruence | right; exact (IH Hk)].
Qed.

End RetrieverMore.

Lemma retrieve_returns_iff_witness :
  let self := {| RAG.chunks := [ {| RAG.text := "Factoring"; RAG.source := "algebra.md" |} ];
                 RAG.threshold := 0.5%Q |} in
  let pairs := [(0.92%Q, 0%Z); (0.31%Q, 7%Z)] in
  ((exists res, RAG.retrieve unit (fun _ => inr tt) (fun _ _ => inr pairs) self
                  "quadratic" 2 = inr res) <->
   Forall (fun p => (RAG.threshold self <= fst p)%Q -> Hits.valid_index self (snd p)) pairs) /\
  (forall e, RAG.retrieve unit (fun _ => inr tt) (fun _ _ => inr pairs) self
               "quadratic" 2 = inl e -> e = IndexError).
Proof.
  intros self pairs.
  apply (retrieve_returns_iff unit (fun _ => inr tt) (fun _ _ => inr pairs) self
           "quadratic" 2 tt pairs); reflexivity.
Defined.

Lemma retrieve_threshold_monotone_witness :
  let cs := [ {| RAG.text := "Factoring"; RAG.source := "algebra.md" |};
              {| RAG.text := "Zero product"; RAG.source := "algebra.md" |} ] in
  let search := fun (_ : unit) (_ : nat) =>
                  (inr [(0.92%Q, 0%Z); (0.61%Q, 1%Z)] : result (list (Q * Z))) in
  [ {| RAG.content := "Factoring"; RAG.hit_source := "algebra.md"; RAG.score := 0.92%Q |} ] =
  List.filter (fun h => Qle_bool 0.75%Q (RAG.score h))
    [ {| RAG.content := "Factoring"; RAG.hit_source := "algebra.md"; RAG.score := 0.92%Q |};
      {| RAG.content := "Zero product"; RAG.hit_source := "algebra.md"; RAG.score := 0.61%Q |} ].
Proof.
  intros cs search.
  apply (retrieve_threshold_monotone unit (fun _ => inr tt) search
           {| RAG.chunks := cs; RAG.threshold := 0.5%Q |}
           {| RAG.chunks := cs; RAG.threshold := 0.75%Q |} "quadratic" 2).
  - reflexivity.
  - vm_compute. discriminate.
  - reflexivity.
  - reflexivity.
Defined.

Lemma retrieve_hits_are_chunks_witness :
  let self := {| RAG.chunks := [ {| RAG.text := "Factoring"; RAG.source := "algebra.md" |} ];
                 RAG.threshold := 0.5%Q |} in
  let search := fun (_ : unit) (_ : nat) =>
                  (inr [(0.92%Q, 0%Z)] : result (list (Q * Z))) in
  let h := {| RAG.content := "Factoring"; RAG.hit_source := "algebra.md"; RAG.score := 0.92%Q |} in
  (exists c, In c (RAG.chunks self) /\ RAG.content h = RAG.text c /\
             RAG.hit_source h = RAG.source c) /\
  (exists v pairs idx, (fun _ : string => inr tt : result unit) "quadratic" = inr v /\
                       search v 1%nat = inr pairs /\ In (RAG.score h, idx) pairs).
Proof.
  intros self search h.
  apply (retrieve_hits_are_chunks unit (fun _ => inr tt) search self "quadratic" 1 [h] h).
  - reflexivity.
  - left. reflexivity.
Defined.

Lemma retrieve_or_empty_safe_witness :
  let self := {| RAG.chunks := [ {| RAG.text := "Factoring"; RAG.source := "algebra.md" |} ];
                 RAG.threshold := 0.5%Q |} in
  let search := fun (_ : unit) (k : nat) =>
                  (inr (firstn k [(0.92%Q, 0%Z); (0.31%Q, 0%Z)]) : result (list (Q * Z))) in
  (forall e, RAG.retrieve_or_empty unit (fun _ => inr tt) search self "quadratic" = inl e ->
             is_Exception e = false) /\
  (forall res, RAG.retrieve_or_empty unit (fun _ => inr tt) search self "quadratic" = inr res ->
               Forall (fun h => (RAG.threshold self <= RAG.score h)%Q) res /\
               (length res <= 5)%nat).
Proof.
  intros self search.
  apply (retrieve_or_empty_safe unit (fun _ => inr tt) search self "quadratic").
  intros v pairs E. inversion E. cbn. lia.
Defined.

Lemma retrieve_minus_one_is_last_chunk_witness :
  let first := {| RAG.text := "Factoring"; RAG.source := "algebra.md" |} in
  let last := {| RAG.text := "Verify roots"; RAG.source := "jee_tips.md" |} in
  let self := {| RAG.chunks := [first; last]; RAG.threshold := (-1)%Q |} in
  In {| RAG.content := "Verify roots"; RAG.hit_source := "jee_tips.md"; RAG.score := (-1)%Q |}
     [ {| RAG.content := "Factoring"; RAG.hit_source := "algebra.md"; RAG.score := 0.92%Q |};
       {| RAG.content := "Verify roots"; RAG.hit_source := "jee_tips.md"; RAG.score := (-1)%Q |} ].
Proof.
  intros first last self.
  apply (retrieve_minus_one_is_last_chunk unit (fun _ => inr tt)
           (fun _ _ => inr [(0.92%Q, 0%Z); ((-1)%Q, (-1)%Z)]) self "quadratic" 2 _ tt
           [(0.92%Q, 0%Z); ((-1)%Q, (-1)%Z)] (-1)%Q [first] last).
  - reflexivity.
  - reflexivity.
  - reflexivity.
  - right. left. reflexivity.
  - vm_compute. discriminate.
  - reflexivity.
Defined.

(** ** The solver's retrieval context *)

Section ContextFacts.
Import RAG Context.
Variable vector : Type.
Variable encode : string -> result vector.
Variable search : vector -> nat -> result (list (Q * Z)).

Lemma append_cons (ch : Ascii.ascii) (a b : string) :
  String.append (String ch a) b = String ch (String.append a b).
Proof. reflexivity. Qed.

Lemma append_assoc (a b c : string) :
  String.append (String.append a b) c = String.append a (String.append b c).
Proof.
  induction a as [| ch a IH]; [reflexivity |].
  rewrite !append_cons. f_equal. exact IH.
Qed.

Lemma append_nil_r (a : string) : String.append a EmptyString = a.
Proof.
  induction a as [| ch a IH]; [reflexivity |].
  rewrite append_cons. f_equal. exact IH.
Qed.

Lemma join_cons (sep x : string) (l : list string) :
  exists tail, join sep (x :: l) = String.append x tail /\
               (l = [] -> tail = EmptyString).
Proof.
  destruct l as [| y l]; cbn.
  - exists EmptyString. rewrite append_nil_r. auto.
  - eexists. split; [reflexivity | discriminate].
Qed.

(** Every element of a joined list sits in the result, between what came
    before and what comes after. *)
Lemma join_In (sep x : string) (l : list string) :
  In x l -> exists pre post, join sep l = String.append pre (String.append x post).
Proof.
  induction l as [| y l IH]; [intros [] |]. intros [-> | Hin].
  - destruct (join_cons sep x l) as (tail & -> & _).
    exists EmptyString, tail. reflexivity.
  - destruct (IH Hin) as (pre & post & E).
    destruct l as [| z l]; [destruct Hin |].
    change (join sep (y :: z :: l))
      with (String.append y (String.append sep (join sep (z :: l)))).
    rewrite E. exists (String.append y (String.append sep pre)), post.
    rewrite !append_assoc. reflexivity.
Qed.

(** X13: [_get_rag_context] hands the retriever's hits on unchanged, and
    the context it builds is the empty text exactly when there are no
    hits. *)
Theorem get_rag_context_empty_iff (retriever : RAGRetriever) (query : string)
    (k : nat) (context : string) (chunks : list hit) :
  _get_rag_context vector encode search retriever query k = inr (context, chunks) ->
  retrieve vector encode search retriever query k = inr chunks /\
  (context = EmptyString <-> chunks = []).
Proof.
  unfold _get_rag_context.
  destruct (retrieve vector encode search retriever query k) as [e | cs]; [discriminate |].
  cbn. intros H. inversion H; subst. split; [reflexivity |].
  destruct chunks as [| c cs]; cbn [List.map].
  - split; reflexivity.
  - destruct (join_cons (String.append nl nl) (format_chunk c) (List.map format_chunk cs))
      as (tail & -> & _).
    unfold format_chunk. rewrite !append_cons. split; discriminate.
Qed.

(** X14: every hit is in the context with its source tag: the context
    contains ["[Source: <source>]"], a line feed and the hit's content, for
    each hit the retriever returned. *)
Theorem get_rag_context_contains (retriever : RAGRetriever) (query : string)
    (k : nat) (context : string) (chunks : list hit) (c : hit) :
  _get_rag_context vector encode search retriever query k = inr (context, chunks) ->
  In c chunks ->
  exists pre post,
    context =
    String.append pre
      (String.append
         (String.append "[Source: "
            (String.append (hit_source c)
               (String.append "]" (String.append nl (content c)))))
         post).
Proof.
  unfold _get_rag_context.
  destruct (retrieve vector encode search retriever query k) as [e | cs]; [discriminate |].
  cbn. intros H Hin. inversion H; subst.
  apply (join_In (String.append nl nl) (format_chunk c)).
  apply in_map. exact Hin.
Qed.

(** Unlike the guarded call site, [_get_rag_context] has no handler: what
    the retriever raises, it raises. *)
Lemma get_rag_context_raises (retriever : RAGRetriever) (query : string)
    (k : nat) (e : exn) :
  retrieve vector encode search retriever query k = inl e ->
  _get_rag_context vector encode search retriever query k = inl e.
Proof. unfold _get_rag_context. intros ->. reflexivity. Qed.

End ContextFacts.

Lemma get_rag_context_empty_iff_witness :
  let retriever := {| RAG.chunks := [ {| RAG.text := "Factoring"; RAG.source := "algebra.md" |} ];
                      RAG.threshold := 0.5%Q |} in
  RAG.retrieve unit (fun _ => inr tt) (fun _ _ => inr [(0.31%Q, 0%Z)]) retriever "limits" 5
    = inr [] /\
  (EmptyString = EmptyString <-> @nil RAG.hit = []).
Proof.
  intros retriever.
  apply (get_rag_context_empty_iff unit (fun _ => inr tt) (fun _ _ => inr [(0.31%Q, 0%Z)])
           retriever "limits" 5 EmptyString []).
  reflexivity.
Defined.

Lemma get_rag_context_contains_witness :
  let retriever := {| RAG.chunks := [ {| RAG.text := "Factoring"; RAG.source := "algebra.md" |};
                                      {| RAG.text := "Verify roots"; RAG.source := "jee_tips.md" |} ];
                      RAG.threshold := 0.5%Q |} in
  let search := fun (_ : unit) (_ : nat) =>
                  (inr [(0.92%Q, 0%Z); (0.75%Q, 1%Z)] : result (list (Q * Z))) in
  exists context chunks,
    Context._get_rag_context unit (fun _ => inr tt) search retriever "quadratic" 5
      = inr (context, chunks) /\
    exists pre post,
      context =
      String.append pre
        (String.append
           (String.append "[Source: "
              (String.append "jee_tips.md"
                 (String.append "]" (String.append Context.nl "Verify roots"))))
           post).
Proof.
  intros retriever search.
  destruct (Context._get_rag_context unit (fun _ => inr tt) search retriever "quadratic" 5)
    as [e | [context chunks]] eqn:E; [discriminate E |].
  exists context, chunks. split; [reflexivity |].
  apply (get_rag_context_contains unit (fun _ => inr tt) search retriever "quadratic" 5
           context chunks
           {| RAG.content := "Verify roots"; RAG.hit_source := "jee_tips.md";
              RAG.score := 0.75%Q |} E).
  inversion E. right. left. reflexivity.
Defined.

(** ** The solver's LLM call, further *)

Section SolverMore.
Import Solver.
Variable generate_json : string -> result (gmap string value).
Variable generate : string -> result string.
Variable _parse_text_response : string -> result (gmap string value).

(** X15: what escapes the solver's block is never the structured call's own
    [Exception]: it is raised by the fallback, by [generate] or by
    [_parse_text_response] after the structured call has failed, or it is
    a [BaseException] such as [KeyboardInterrupt], which [except Exception]
    lets through without trying the fallback. *)
Theorem generate_solution_raises (prompt : string) (e : exn) :
  generate_solution generate_json generate _parse_text_response prompt = inl e ->
  (generate_json prompt = inl e /\ is_Exception e = false) \/
  (exists json_error,
     generate_json prompt = inl json_error /\ is_Exception json_error = true /\
     (generate prompt = inl e \/
      exists text_response,
        generate prompt = inr text_response /\
        _parse_text_response text_response = inl e)).
Proof.
  unfold generate_solution, try_except.
  destruct (generate_json prompt) as [je | solution]; [| discriminate].
  destruct (is_Exception je) eqn:Ej.
  - intros H. right. exists je. split; [reflexivity |]. split; [exact Ej |].
    destruct (generate prompt) as [e' | text_response]; cbn in H.
    + left. inversion H. reflexivity.
    + right. exists text_response. auto.
  - intros H. inversion H; subst. left. auto.
Qed.

End SolverMore.

Lemma generate_solution_raises_witness :
  ((fun _ : string => inl KeyboardInterrupt : result (gmap string value)) "Solve x" =
     inl KeyboardInterrupt /\ is_Exception KeyboardInterrupt = false) \/
  (exists json_error,
     (fun _ : string => inl KeyboardInterrupt : result (gmap string value)) "Solve x" =
       inl json_error /\ is_Exception json_error = true /\
     ((fun _ : string => inr "x = 1" : result string) "Solve x" = inl KeyboardInterrupt \/
      exists text_response,
        (fun _ : string => inr "x = 1" : result string) "Solve x" = inr text_response /\
        (fun _ : string => inr ∅ : result (gmap string value)) text_response =
          inl KeyboardInterrupt)).
Proof.
  apply (generate_solution_raises (fun _ => inl KeyboardInterrupt) (fun _ => inr "x = 1")
           (fun _ => inr ∅) "Solve x" KeyboardInterrupt).
  reflexivity.
Defined.

(** ** The verifier's trigger, further *)

Section TriggerMore.
Import Verifier.
Local Open Scope Q_scope.
Variable otherwise : Q -> gmap string value.

(** X16: escalation is monotone: if a score escalates under a threshold,
    every lower score escalates under every higher threshold; and the
    comparison is strict, a score equal to the threshold is not
    escalated. *)
Theorem hitl_trigger_monotone (self self' : VerifierAgent)
    (final_confidence final_confidence' : Q) :
  final_confidence < hitl_threshold self ->
  final_confidence' <= final_confidence ->
  hitl_threshold self <= hitl_threshold self' ->
  hitl_trigger otherwise self' final_confidence' = hitl_verdict /\
  hitl_trigger otherwise self (hitl_threshold self) = otherwise (hitl_threshold self).
Proof.
  intros Hlt Hle Ht. split.
  - apply hitl_trigger_below. lra.
  - apply hitl_trigger_above. lra.
Qed.

End TriggerMore.

Lemma hitl_trigger_monotone_witness :
  let otherwise := fun c : Q => ({[ "verdict" := VStr "pass" ]} : gmap string value) in
  Verifier.hitl_trigger otherwise {| Verifier.hitl_threshold := 0.80%Q |} 0.55%Q
    = Verifier.hitl_verdict /\
  Verifier.hitl_trigger otherwise {| Verifier.hitl_threshold := 0.70%Q |} 0.70%Q
    = otherwise 0.70%Q.
Proof.
  intros otherwise.
  apply (hitl_trigger_monotone otherwise {| Verifier.hitl_threshold := 0.70%Q |}
           {| Verifier.hitl_threshold := 0.80%Q |} 0.65%Q 0.55%Q);
    vm_compute; first [reflexivity | discriminate].
Defined.

(** ** The orchestrator, further *)

Section PipelineMore.
Import Pipeline.
Variable parse : string -> result (gmap string value).
Variable route : gmap string value -> result (gmap string value).
Variable solve : string -> gmap string value -> result (gmap string value).
Variable explain : gmap string value -> result (gmap string value).



End PipelineMore.


(** ** The input processors *)

Section OCRFacts.
Import OCR.
Variable ocr_prompt : string -> string.
Variable generate : string -> result (option string).

(** X19: once the LLM has answered, [_llm_enhance_ocr] returns the LLM's
    answer when that is a non-empty text and the raw OCR text when the
    answer is empty or [None]; so a non-empty raw text never comes back
    empty; the OCR confidence passed in plays no part. *)
Theorem llm_enhance_ocr_keeps_text (raw_text : string) (confidence : Q)
    (corrected : option string) :
  generate (ocr_prompt raw_text) = inr corrected ->
  (forall s, corrected = Some s -> s <> EmptyString ->
             _llm_enhance_ocr ocr_prompt generate raw_text confidence = inr s) /\
  (corrected = None \/ corrected = Some EmptyString ->
   _llm_enhance_ocr ocr_prompt generate raw_text confidence = inr raw_text) /\
  (raw_text <> EmptyString ->
   exists enhanced,
     _llm_enhance_ocr ocr_prompt generate raw_text confidence = inr enhanced /\
     enhanced <> EmptyString) /\
  (forall confidence',
     _llm_enhance_ocr ocr_prompt generate raw_text confidence' =
     _llm_enhance_ocr ocr_prompt generate raw_text confidence).
Proof.
  intros Hg. unfold _llm_enhance_ocr. rewrite Hg.
  cbn [mbind result_bind mret result_ret].
  split; [| split; [| split; [| reflexivity]]].
  - intros s -> Hs. cbn [answered default id].
    destruct (String.eqb_spec s EmptyString) as [E | _]; [contradiction | reflexivity].
  - intros [-> | ->]; reflexivity.
  - intros Hr. destruct corrected as [s |]; cbn [answered default id].
    + destruct (String.eqb_spec s EmptyString) as [E | Hs]; cbn [negb]; eauto.
    + eauto.
Qed.

(** There is no handler around the LLM call: when [generate] raises, the
    raw text is not returned, the exception is. *)
Lemma llm_enhance_ocr_raises (raw_text : string) (confidence : Q) (e : exn) :
  generate (ocr_prompt raw_text) = inl e ->
  _llm_enhance_ocr ocr_prompt generate raw_text confidence = inl e.
Proof. unfold _llm_enhance_ocr. intros ->. reflexivity. Qed.

End OCRFacts.

Lemma llm_enhance_ocr_keeps_text_witness :
  let ocr_prompt := fun raw : string => String.append "Original OCR text: " raw in
  let generate := fun _ : string => (inr (Some "6 / 2") : result (option string)) in
  OCR._llm_enhance_ocr ocr_prompt generate "6 -: 2" 0.6%Q = inr "6 / 2".
Proof.
  intros ocr_prompt generate.
  apply (proj1 (llm_enhance_ocr_keeps_text ocr_prompt generate "6 -: 2" 0.6%Q
                  (Some "6 / 2") eq_refl) "6 / 2").
  - reflexivity.
  - discriminate.
Defined.

Section ASRFacts.
Import ASR.
Variable b64encode : list Byte.byte -> string.

(** X20: the audio format sent to the model is decided by the first four
    bytes alone: it is ["audio/wav"] exactly for data that starts with
    [RIFF] and ["audio/webm"] for everything else, data shorter than four
    bytes included (the slice does not raise); the payload is the encoding
    of the whole input. *)
Theorem audio_part_mime_type (audio_bytes : list Byte.byte) :
  (mime_type (audio_part b64encode audio_bytes) = "audio/wav" <->
   exists rest, audio_bytes = RIFF ++ rest) /\
  (mime_type (audio_part b64encode audio_bytes) = "audio/webm" <->
   ~ exists rest, audio_bytes = RIFF ++ rest) /\
  ((length audio_bytes < 4)%nat ->
   mime_type (audio_part b64encode audio_bytes) = "audio/webm") /\
  data (audio_part b64encode audio_bytes) = b64encode audio_bytes.
Proof.
  assert (P : firstn 4 audio_bytes = RIFF <-> exists rest, audio_bytes = RIFF ++ rest).
  { split.
    - intros H. exists (skipn 4 audio_bytes). rewrite <- H. symmetry. apply firstn_skipn.
    - intros [rest ->]. reflexivity. }
  unfold audio_part. cbn [mime_type data].
  destruct (bool_decide_reflect (firstn 4 audio_bytes = RIFF)) as [H | H].
  - split; [split; [intros _; apply P; exact H | reflexivity] |].
    split; [split; [discriminate | intros N; exfalso; apply N, P; exact H] |].
    split; [| reflexivity].
    intros Hl. exfalso. apply (f_equal (@length _)) in H.
    rewrite length_take in H. change (length RIFF) with 4%nat in H. lia.
  - split; [split; [discriminate | intros E; exfalso; apply H, P; exact E] |].
    split; [split; [intros _ E; apply H, P; exact E | reflexivity] |].
    split; reflexivity.
Qed.

End ASRFacts.

(** ** The LLM client's key *)

Section LLMClientFacts.
Import LLMClient.

(** X21: the key is taken from the first source that has a non-empty one,
    in the order direct parameter, environment, Streamlit secrets; a later
    source never overrides an earlier one, a non-empty key always comes
    from one of the three, and the import of Streamlit is attempted, and
    can fail, only when parameter and environment both lack a key. *)
Theorem resolve_api_key_precedence (api_key : option string)
    (environ : gmap string string)
    (streamlit : option (option (gmap string (gmap string string)))) :
  (has_key api_key = true ->
   resolve_api_key api_key environ streamlit = api_key_set api_key) /\
  (has_key api_key = false -> has_key (environ !! "GOOGLE_API_KEY") = true ->
   resolve_api_key api_key environ streamlit =
   api_key_set (environ !! "GOOGLE_API_KEY")) /\
  (has_key api_key = false -> has_key (environ !! "GOOGLE_API_KEY") = false ->
   has_key (secret_key streamlit) = true ->
   resolve_api_key api_key environ streamlit = api_key_set (secret_key streamlit)) /\
  (forall k, resolve_api_key api_key environ streamlit = api_key_set k ->
             has_key k = true ->
             k = api_key \/ k = environ !! "GOOGLE_API_KEY" \/ k = secret_key streamlit) /\
  (resolve_api_key api_key environ streamlit = ImportError ->
   has_key api_key = false /\ has_key (environ !! "GOOGLE_API_KEY") = false /\
   streamlit = None).
Proof.
  unfold resolve_api_key, py_or, secret_key.
  destruct (has_key api_key) eqn:Ha; cbn [negb].
  - rewrite Ha. cbn [negb]. repeat split; try discriminate; auto.
    intros k H _. inversion H. auto.
  - destruct (has_key (environ !! "GOOGLE_API_KEY")) eqn:He; cbn [negb].
    + repeat split; try discriminate; auto.
      intros k H _. inversion H. auto.
    + destruct streamlit as [[secrets |] |].
      * destruct (secrets !! "api_keys") as [api_keys |].
        -- repeat split; try discriminate; auto.
           intros k H _. inversion H. auto.
        -- repeat split; try discriminate; auto.
           intros k H Hk. inversion H; subst. congruence.
      * repeat split; try discriminate; auto.
        intros k H Hk. inversion H; subst. congruence.
      * repeat split; try discriminate; auto.
Qed.

End LLMClientFacts.

Lemma resolve_api_key_precedence_witness :
  LLMClient.resolve_api_key None {[ "GOOGLE_API_KEY" := "env-key" ]}
    (Some (Some {[ "api_keys" := {[ "GOOGLE_API_KEY" := "secret-key" ]} ]}))
  = LLMClient.api_key_set (Some "env-key").
Proof.
  exact (proj1 (proj2 (resolve_api_key_precedence None {[ "GOOGLE_API_KEY" := "env-key" ]}
                         (Some (Some {[ "api_keys" := {[ "GOOGLE_API_KEY" := "secret-key" ]} ]}))))
           eq_refl eq_refl).
Defined.
